(** * Outage schedule derivation of the svitlo bot ([scraper.py]) and its bot

    A shallow embedding of the schedule engine: half-hour slot maps, the
    interval deriver, the current-power and next-outage evaluators, the
    change fingerprint's pre-image, the raw-payload cache and the slot
    extraction from the decoded feed.

    Time.  Every [datetime] of the module carries the one [tzinfo] [TZ], and
    Python's arithmetic and comparisons between aware datetimes that share a
    [tzinfo] are wall-clock arithmetic.  A datetime is therefore modelled as
    its wall-clock time in microseconds since midnight of day 0, a [Z]; a
    calendar date as its string together with the day number [strptime]
    parses it to.

    Around the engine: the [chats] table of [database.py] as a finite map
    from [chat_id] to rows with its writes, and the pure parts of [bot.py]
    (duration text, callback and command parsing, the group picker, the
    branch the card renderer takes, the admin tally), a Python [str] there
    being the list of its code points. *)

From Stdlib Require Import ZArith Lia List Sorting.Sorted Sorting.Permutation QArith Ascii.
From stdpp Require Import base gmap strings pretty.
Import ListNotations.

Open Scope Z_scope.
#[local] Set Warnings "-register-all".

(* ------------------------------------------------------------------ *)
(** ** Time units and datetime fields *)

Definition SEC : Z := 1000000.

Definition MIN : Z := 60 * SEC.

Definition HOUR : Z := 60 * MIN.

Definition DAY : Z := 24 * HOUR.

(** [HALF_HOUR = timedelta(minutes=30)] *)
Definition HALF_HOUR : Z := 30 * MIN.

Definition dt_hour (t : Z) : Z := (t / HOUR) mod 24.

Definition dt_minute (t : Z) : Z := (t / MIN) mod 60.

Definition dt_second (t : Z) : Z := (t / SEC) mod 60.

Definition dt_microsecond (t : Z) : Z := t mod SEC.

(** [dt.replace(minute=m, second=0, microsecond=0)] *)
Definition dt_replace_min (t m : Z) : Z :=
  t - dt_minute t * MIN - dt_second t * SEC - dt_microsecond t + m * MIN.

(** A date as the feed gives it: the string and the day it denotes. *)
Record date := mkDate { date_str : string; date_day : Z }.

(** [_date_to_dt]: midnight of the date. *)
Definition _date_to_dt (d : date) : Z := date_day d * DAY.

(** [f"{n:02d}"] for the non-negative fields it is applied to. *)
Definition fmt02 (n : Z) : string :=
  if n <? 10 then "0" +:+ pretty n else pretty n.

Definition _time_str_from_dt (t : Z) : string :=
  fmt02 (dt_hour t) +:+ ":" +:+ fmt02 (dt_minute t).

Definition _round_down_to_half_hour (t : Z) : Z :=
  let minute := if dt_minute t <? 30 then 0 else 30 in
  dt_replace_min t minute.

(** The [while cur < end] loop of [_iter_half_hours]; [fuel] only bounds the
    recursion, the loop stops on its own condition (see
    [iter_half_hours_loop_eq]). *)
Fixpoint iter_half_hours_loop (fuel : nat) (cur end_ : Z) : list Z :=
  match fuel with
  | O => []
  | S f => if cur <? end_ then cur :: iter_half_hours_loop f (cur + HALF_HOUR) end_ else []
  end.

Definition _iter_half_hours (day_start : Z) : list Z :=
  iter_half_hours_loop 49 day_start (day_start + DAY).

(* ------------------------------------------------------------------ *)
(** ** Slot maps *)

(** A normalized slot map ([Dict[str, int]]); only [.get] is used on it. *)
Abbreviation SlotMap := (gmap string Z).

(** [int(slots.get(key, 1))] *)
Definition slot_status (slots : SlotMap) (key : string) : Z :=
  default 1 (slots !! key).

(* ------------------------------------------------------------------ *)
(** ** Interval deriver: [_slots_to_off_intervals], [_total_minutes] *)

Record Interval := mkInterval { start : Z; end_ : Z }.

Record off_state := mkOffState {
  in_off : bool;
  off_start : option Z;
  intervals : list Interval }.

(** One iteration of [for i, t in enumerate(times)]; [n] is [len(times)]. *)
Definition off_step (slots : SlotMap) (day_start : Z) (n : nat)
    (st : off_state) (it : nat * Z) : off_state :=
  let '(i, t) := it in
  let key := _time_str_from_dt t in
  let status := slot_status slots key in
  let is_off := Z.eqb status 2 in
  let st1 :=
    if is_off && negb (in_off st) then mkOffState true (Some t) (intervals st) else st in
  let st2 :=
    if negb is_off && in_off st1 then
      match off_start st1 with
      | Some s => mkOffState false None (intervals st1 ++ [mkInterval s t])
      | None => mkOffState false None (intervals st1) (* unreachable: in_off is set with off_start *)
      end
    else st1 in
  if Nat.eqb i (n - 1) && in_off st2 then
    match off_start st2 with
    | Some s => mkOffState (in_off st2) (off_start st2)
                  (intervals st2 ++ [mkInterval s (day_start + DAY)])
    | None => st2 (* unreachable *)
    end
  else st2.

Definition enumerate {A} (l : list A) : list (nat * A) := combine (seq 0 (length l)) l.

Definition off_walk (d : date) (slots : SlotMap) : off_state :=
  let day_start := _date_to_dt d in
  let times := _iter_half_hours day_start in
  fold_left (off_step slots day_start (length times)) (enumerate times)
    (mkOffState false None []).

Definition _slots_to_off_intervals (d : date) (slots : SlotMap) : list Interval :=
  intervals (off_walk d slots).

(** [int((it.end - it.start).total_seconds() // 60)], summed. *)
Definition _total_minutes (ivs : list Interval) : Z :=
  fold_left (fun total it => total + (end_ it - start it) / MIN) ivs 0.

Definition half_time (ds : Z) (j : nat) : Z := ds + Z.of_nat j * HALF_HOUR.

Definition init_off_state : off_state := mkOffState false None [].

(** ** The walk of [_slots_to_off_intervals] *)

Definition off_at (slots : SlotMap) (t : Z) : bool :=
  Z.eqb (slot_status slots (_time_str_from_dt t)) 2.

Definition off_count (slots : SlotMap) (ds : Z) (j : nat) : nat :=
  length (List.filter (fun i => off_at slots (half_time ds i)) (seq 0 j)).

Definition walk_prefix (slots : SlotMap) (ds : Z) (j : nat) : off_state :=
  fold_left (off_step slots ds 48) (map (fun i => (i, half_time ds i)) (seq 0 j))
    init_off_state.

Definition open_len (ds : Z) (j : nat) (st : off_state) : Z :=
  match off_start st with Some s => half_time ds j - s | None => 0 end.

Definition walk_inv (slots : SlotMap) (ds : Z) (j : nat) (st : off_state) : Prop :=
  Forall (fun it => start it < end_ it) (intervals st) /\
  StronglySorted (fun a b => end_ a < start b) (intervals st) /\
  Forall (fun it => ds <= start it /\ end_ it < half_time ds j) (intervals st) /\
  MIN * _total_minutes (intervals st) + open_len ds j st
    = HALF_HOUR * Z.of_nat (off_count slots ds j) /\
  (in_off st = true -> exists k, (k < j)%nat /\ off_start st = Some (half_time ds k) /\
     Forall (fun it => end_ it < half_time ds k) (intervals st)) /\
  (in_off st = false -> off_start st = None) /\
  (off_at slots (half_time ds 0) = true -> (1 <= j)%nat ->
     match intervals st with
     | [] => off_start st = Some (half_time ds 0)
     | h :: _ => start h = half_time ds 0
     end).

(** What the whole walk yields: the facts the interval claims rest on. *)
Definition walk_result (slots : SlotMap) (ds : Z) (st : off_state) : Prop :=
  Forall (fun it => start it < end_ it) (intervals st) /\
  StronglySorted (fun a b => end_ a < start b) (intervals st) /\
  Forall (fun it => ds <= start it /\ end_ it <= ds + DAY) (intervals st) /\
  MIN * _total_minutes (intervals st) = HALF_HOUR * Z.of_nat (off_count slots ds 48) /\
  (in_off st = true -> exists s, last (intervals st) = Some (mkInterval s (ds + DAY))) /\
  (off_at slots (half_time ds 0) = true ->
     match intervals st with [] => False | h :: _ => start h = ds end).

Definition shift_iv (ds : Z) (it : Interval) : Interval :=
  mkInterval (ds + start it) (ds + end_ it).

Definition shift_state (ds : Z) (st : off_state) : off_state :=
  mkOffState (in_off st) (option_map (Z.add ds) (off_start st))
    (map (shift_iv ds) (intervals st)).

(** The key [_time_str_from_dt] gives the [j]-th boundary of every day. *)
Definition slot_key (j : nat) : string := _time_str_from_dt (half_time 0 j).

(** Number of the 48 keys of the day whose status is 2. *)
Definition count_off_slots (d : date) (slots : SlotMap) : nat :=
  length (List.filter (fun t => Z.eqb (slot_status slots (_time_str_from_dt t)) 2)
            (_iter_half_hours (_date_to_dt d))).

Definition example_day : date := mkDate "2026-02-11" 739658.

(* ------------------------------------------------------------------ *)
(** ** Schedule evaluator: [_find_next_outage], [_is_now_has_power] *)

(** [sorted(..., key=lambda x: x.start)].  Python's sort is stable; inserting
    each element after the ones whose key is not larger is the stable sort. *)
Fixpoint insert_by_start (x : Interval) (l : list Interval) : list Interval :=
  match l with
  | [] => [x]
  | y :: l' => if start x <? start y then x :: y :: l' else y :: insert_by_start x l'
  end.

Definition sorted_by_start (l : list Interval) : list Interval :=
  fold_left (fun acc x => insert_by_start x acc) l [].

Definition _find_next_outage (now : Z) (today_off tomorrow_off : list Interval) : option Z :=
  let all_intervals := sorted_by_start (today_off ++ tomorrow_off) in
  match List.find (fun it => now <? start it) all_intervals with
  | Some it => Some (start it)
  | None => None
  end.

Definition _is_now_has_power (now : Z) (date_today : date) (slots_today : SlotMap) : bool :=
  let now_rounded := _round_down_to_half_hour now in
  let today_start := _date_to_dt date_today in
  if negb ((today_start <=? now_rounded) && (now_rounded <? today_start + DAY)) then true
  else
    let key := _time_str_from_dt now_rounded in
    let status := slot_status slots_today key in
    Z.eqb status 1.

(** The [next_outage_in_minutes] field of [get_schedule]:
    [int(((next_outage_start - now).total_seconds() + 59) // 60)], floored
    at 0.  [total_seconds()] is the microsecond count divided by 10^6 and
    [//] floors; the model computes them exactly. *)
Definition next_outage_in_minutes (now : Z) (next_outage_start : option Z) : option Z :=
  match next_outage_start with
  | Some s => Some (Z.max ((s - now + 59 * SEC) / MIN) 0)
  | None => None
  end.

(** The minutes-until value as the spec words it: the duration from [now]
    to the start, rounded up to whole minutes, floored at 0. *)
Definition spec_minutes_until (now s : Z) : Z := Z.max (- ((now - s) / MIN)) 0.

Definition example_tomorrow : date := mkDate "2026-02-12" 739659.

(* ------------------------------------------------------------------ *)
(** ** Decoded feed payloads *)

(** A value as [json.loads] returns it.  [JObj] holds a dict's items in
    insertion order; as in every Python dict its keys are distinct.  Finite
    floats are rationals; [JNonFinite] is the [NaN]/[Infinity] the decoder
    also accepts. *)
Inductive json :=
  | JNull
  | JBool (b : bool)
  | JInt (z : Z)
  | JFloat (q : Q)
  | JNonFinite
  | JStr (s : string)
  | JArr (l : list json)
  | JObj (kvs : list (string * json)).

(** Outcome of a call: a value, or the exception it raises. *)
Inductive outcome (A E : Type) := Ok (a : A) | Err (e : E).
Arguments Ok {A E} a.
Arguments Err {A E} e.

(** Why the upstream request failed: [asyncio.TimeoutError],
    [raise_for_status()] or [resp.json()]. *)
Inductive fetch_failure := FetchTimeout | HttpStatusError (status : Z) | MalformedBody.

(** The exceptions of the module.  [FeedUnavailable] is the upstream failure
    propagating out of [_fetch_raw] unchanged; [RegionNotFound] is the
    [ValueError] of [_extract_region_block]. *)
Inductive sched_error :=
  | FeedUnavailable (e : fetch_failure)
  | RegionNotFound (region : string)
  | AttributeError
  | TypeError.

(** [d.get(k)] on a dict. *)
Fixpoint dict_get (kvs : list (string * json)) (k : string) : option json :=
  match kvs with
  | [] => None
  | (k', v) :: rest => if String.eqb k' k then Some v else dict_get rest k
  end.

(** [obj.get(k, default)]: only dicts have [.get]. *)
Definition py_get (obj : json) (k : string) (dflt : json) : outcome json sched_error :=
  match obj with
  | JObj kvs => Ok (default dflt (dict_get kvs k))
  | _ => Err AttributeError
  end.

(** Python truth value. *)
Definition truthy (v : json) : bool :=
  match v with
  | JNull => false
  | JBool b => b
  | JInt z => negb (Z.eqb z 0)
  | JFloat q => negb (Qeq_bool q 0)
  | JNonFinite => true
  | JStr s => negb (String.eqb s "")
  | JArr l => negb (Nat.eqb (length l) 0)
  | JObj kvs => negb (Nat.eqb (length kvs) 0)
  end.

(** [v or {}] *)
Definition or_empty (v : json) : json := if truthy v then v else JObj [].

Fixpoint string_chars (s : string) : list ascii :=
  match s with EmptyString => [] | String c s' => c :: string_chars s' end.

(** [for x in v]: lists, the keys of a dict, the characters of a string. *)
Definition py_iter (v : json) : option (list json) :=
  match v with
  | JArr l => Some l
  | JObj kvs => Some (map (fun kv => JStr (fst kv)) kvs)
  | JStr s => Some (map (fun c => JStr (String c EmptyString)) (string_chars s))
  | _ => None
  end.

(* ------------------------------------------------------------------ *)
(** ** Raw-payload cache: [_fetch_raw] *)

(** [_RAW_CACHE] and the upstream requests issued so far. *)
Record world := mkWorld {
  raw_cache : gmap string (Z * json);
  upstream_requests : nat }.

(** [_fetch_raw region_cpu] at time [now] ([time.time()], in microseconds);
    [upstream] is what the request to [API_URL] yields if one is made. *)
Definition _fetch_raw (cache_ttl_seconds : Z) (upstream : outcome json fetch_failure)
    (region_cpu : string) (now : Z) (w : world) : outcome json sched_error * world :=
  let fetch :=
    let w' := mkWorld (raw_cache w) (S (upstream_requests w)) in
    match upstream with
    | Err e => (Err (FeedUnavailable e), w')
    | Ok data =>
        (Ok data, mkWorld (<[region_cpu := (now + cache_ttl_seconds * SEC, data)]> (raw_cache w'))
                          (upstream_requests w'))
    end in
  match raw_cache w !! region_cpu with
  | Some (expires, payload) => if now <? expires then (Ok payload, w) else fetch
  | None => fetch
  end.

(* ------------------------------------------------------------------ *)
(** ** Slot extraction: [_extract_region_block], [_extract_slots] *)

Definition bind_out {A B E} (m : outcome A E) (f : A -> outcome B E) : outcome B E :=
  match m with Ok a => f a | Err e => Err e end.
Notation "'let*' x := m 'in' k" := (bind_out m (fun x => k))
  (at level 200, x name, m at level 100, k at level 200).

(** A Python [str] is the sequence of its code points. *)
Definition pystr := list Z.

Definition byte_val (c : ascii) : Z := Z.of_nat (nat_of_ascii c).

(** UTF-8 decoding. A [string] of this development holds the UTF-8 bytes
    of a Python [str] (a feed string or a literal of the source, lone
    surrogates as their three bytes), so that [pylit "✅ "] below is the
    two code points U+2705 U+0020. *)
Fixpoint utf8_decode (l : list ascii) : pystr :=
  match l with
  | [] => []
  | b0 :: rest =>
      let v0 := byte_val b0 in
      if v0 <? 128 then v0 :: utf8_decode rest
      else match rest with
        | [] => []
        | b1 :: rest1 =>
            if v0 <? 224 then
              Z.lor (Z.shiftl (Z.land v0 31) 6) (Z.land (byte_val b1) 63) :: utf8_decode rest1
            else match rest1 with
              | [] => []
              | b2 :: rest2 =>
                  if v0 <? 240 then
                    Z.lor (Z.shiftl (Z.land v0 15) 12)
                      (Z.lor (Z.shiftl (Z.land (byte_val b1) 63) 6) (Z.land (byte_val b2) 63))
                    :: utf8_decode rest2
                  else match rest2 with
                    | [] => []
                    | b3 :: rest3 =>
                        Z.lor (Z.shiftl (Z.land v0 7) 18)
                          (Z.lor (Z.shiftl (Z.land (byte_val b1) 63) 12)
                             (Z.lor (Z.shiftl (Z.land (byte_val b2) 63) 6) (Z.land (byte_val b3) 63)))
                        :: utf8_decode rest3
                    end
              end
        end
  end.

(** [str.isspace] on one code point ([Py_UNICODE_ISSPACE]). *)
Definition is_py_space_cp (c : Z) : bool :=
  ((9 <=? c) && (c <=? 13)) || ((28 <=? c) && (c <=? 32)) || (c =? 133) || (c =? 160)
  || (c =? 5760) || ((8192 <=? c) && (c <=? 8202)) || (c =? 8232) || (c =? 8233)
  || (c =? 8239) || (c =? 8287) || (c =? 12288).

(** An ASCII decimal digit. *)
Definition is_digit (c : ascii) : bool :=
  let n := nat_of_ascii c in Nat.leb 48 n && Nat.leb n 57.

(** The first code points of the 66 runs of ten decimal digits (category
    Nd) of Unicode 14.0, the database of Python 3.11: ASCII, Arabic-Indic,
    ..., fullwidth, mathematical, ... digits. *)
Definition decimal_zeros : list Z :=
  [48; 1632; 1776; 1984; 2406; 2534; 2662; 2790; 2918; 3046; 3174; 3302; 3430;
   3558; 3664; 3792; 3872; 4160; 4240; 6112; 6160; 6470; 6608; 6784; 6800; 6992;
   7088; 7232; 7248; 42528; 43216; 43264; 43472; 43504; 43600; 44016; 65296;
   66720; 68912; 69734; 69872; 69942; 70096; 70384; 70736; 70864; 71248; 71360;
   71472; 71904; 72016; 72784; 73040; 73120; 92768; 92864; 93008; 120782;
   120792; 120802; 120812; 120822; 123200; 123632; 125264; 130032].

(** [Py_UNICODE_TODECIMAL]: the value of a decimal digit, [None] for other
    code points. *)
Definition py_todecimal (c : Z) : option Z :=
  match find (fun z => (z <=? c) && (c <? z + 10)) decimal_zeros with
  | Some z => Some (c - z)
  | None => None
  end.

Fixpoint transform_decimal_and_space (u : pystr) : pystr :=
  match u with
  | [] => []
  | ch :: u' =>
      if ch <? 127 then ch :: transform_decimal_and_space u'
      else if is_py_space_cp ch then 32 :: transform_decimal_and_space u'
      else match py_todecimal ch with
           | Some d => (48 + d) :: transform_decimal_and_space u'
           | None => [63]
           end
  end.

(** [_PyUnicode_TransformDecimalAndSpaceToASCII]: an ASCII string is kept;
    otherwise Unicode whitespace becomes a space and decimal digits their
    ASCII digits, and the first other non-ASCII character becomes ['?'],
    where the result ends. *)
Definition to_decimal_ascii (u : pystr) : pystr :=
  if forallb (fun ch => ch <? 128) u then u else transform_decimal_and_space u.

(** [Py_ISSPACE]: the ASCII whitespace [PyLong_FromString] skips. *)
Definition py_isspace_ascii (c : Z) : bool := ((9 <=? c) && (c <=? 13)) || (c =? 32).

Fixpoint skip_spaces (u : pystr) : pystr :=
  match u with
  | c :: u' => if py_isspace_ascii c then skip_spaces u' else u
  | [] => []
  end.

(** The digit scan of [PyLong_FromString] in base 10: the value and the
    number of the digits read, whether the last character read is an
    underscore, and what follows; [None] on two underscores in a row. *)
Fixpoint scan_digits (u : pystr) (acc digits : Z) (prev_underscore : bool)
    : option (Z * Z * bool * pystr) :=
  match u with
  | c :: u' =>
      if (48 <=? c) && (c <=? 57) then scan_digits u' (acc * 10 + (c - 48)) (digits + 1) false
      else if c =? 95 then
        if prev_underscore then None else scan_digits u' acc digits true
      else Some (acc, digits, prev_underscore, u)
  | [] => Some (acc, digits, prev_underscore, [])
  end.

(** [sys.get_int_max_str_digits()] at its default. *)
Definition int_max_str_digits : Z := 4300.

(** [PyLong_FromString(s, &end, 10)] followed by the check that [end] is
    the end of the string: leading whitespace, a sign, no leading
    underscore, digits with single underscores between them, at most
    [int_max_str_digits] digits, trailing whitespace. *)
Definition py_long_from_string (u : pystr) : option Z :=
  let u := skip_spaces u in
  let '(sign, u) := match u with
                    | 43 :: u' => (1, u')
                    | 45 :: u' => (-1, u')
                    | _ => (1, u)
                    end in
  match u with
  | 95 :: _ => None
  | _ =>
      match scan_digits u 0 0 false with
      | None => None
      | Some (v, digits, prev_underscore, rest) =>
          if prev_underscore then None
          else if int_max_str_digits <? digits then None
          else if digits =? 0 then None
          else match skip_spaces rest with
               | [] => Some (sign * v)
               | _ => None
               end
      end
  end.

(** [int(s)] for a [str] ([PyLong_FromUnicodeObject]), [None] where it
    raises [ValueError]. *)
Definition parse_int_str (s : string) : option Z :=
  py_long_from_string (to_decimal_ascii (utf8_decode (string_chars s))).

(** [int(v)], [None] where it raises: booleans are 0 and 1, floats are
    truncated toward zero, NaN and infinities raise, strings are parsed,
    [None], lists and dicts raise [TypeError]. *)
Definition py_int (v : json) : option Z :=
  match v with
  | JNull => None
  | JBool b => Some (if b then 1 else 0)
  | JInt z => Some z
  | JFloat q => Some (Z.quot (Qnum q) (Zpos (Qden q)))
  | JNonFinite => None
  | JStr s => parse_int_str s
  | JArr _ => None
  | JObj _ => None
  end.

(** [r.get("cpu") == region_cpu] *)
Definition json_eq_str (v : json) (s : string) : bool :=
  match v with JStr s' => String.eqb s' s | _ => false end.

Fixpoint find_region (regions : list json) (region_cpu : string) : outcome json sched_error :=
  match regions with
  | [] => Err (RegionNotFound region_cpu)
  | r :: rest =>
      let* cpu := py_get r "cpu" JNull in
      if json_eq_str cpu region_cpu then Ok r else find_region rest region_cpu
  end.

Definition _extract_region_block (payload : json) (region_cpu : string) : outcome json sched_error :=
  let* regions := py_get payload "regions" (JArr []) in
  match py_iter regions with
  | Some rs => find_region rs region_cpu
  | None => Err TypeError
  end.

(** [d.items()] *)
Definition py_items (v : json) : outcome (list (string * json)) sched_error :=
  match v with JObj kvs => Ok kvs | _ => Err AttributeError end.

(** The [try: normalized[k] = int(v) except Exception: continue] loop. *)
Definition normalize_slots (items : list (string * json)) : SlotMap :=
  fold_left (fun normalized kv =>
               match py_int (snd kv) with
               | Some z => <[fst kv := z]> normalized
               | None => normalized
               end) items ∅.

Definition _extract_slots (region_block : json) (group_name date_str : string)
    : outcome SlotMap sched_error :=
  let* schedule := py_get region_block "schedule" (JObj []) in
  let schedule := or_empty schedule in
  let* group_block := py_get schedule group_name (JObj []) in
  let group_block := or_empty group_block in
  let* day_slots := py_get group_block date_str (JObj []) in
  let day_slots := or_empty day_slots in
  let* items := py_items day_slots in
  Ok (normalize_slots items).

Definition example_cx_slots_block : json :=
  JObj [("schedule", JObj [("2.1", JObj [("2026-02-11",
    JObj [("10:00", JFloat (5 # 2)); ("10:30", JStr "2"); ("11:00", JStr " ٣")])])])].

(** The region list of a payload, as the loop of [_extract_region_block]
    sees it when [regions] is absent or a list. *)
Definition regions_of (payload : json) : list json :=
  match payload with
  | JObj kvs => match dict_get kvs "regions" with Some (JArr rs) => rs | _ => [] end
  | _ => []
  end.

(** A structurally well-formed payload: a dict whose [regions] entry is
    absent or a list of dicts. *)
Definition payload_wf (payload : json) : Prop :=
  exists kvs, payload = JObj kvs /\
    match dict_get kvs "regions" with
    | None => True
    | Some (JArr rs) => Forall (fun r => exists rk, r = JObj rk) rs
    | Some _ => False
    end.

Definition region_matches (region_cpu : string) (r : json) : Prop :=
  exists rk, r = JObj rk /\ dict_get rk "cpu" = Some (JStr region_cpu).

Definition sub_dict (v : json) (k : string) : option json :=
  match v with JObj kvs => dict_get kvs k | _ => None end.

(** An entry that is absent, falsy or a dict. *)
Definition obj_or_falsy (o : option json) : Prop :=
  match o with None => True | Some v => truthy v = false \/ exists kvs, v = JObj kvs end.

(** [region_block["schedule"][group][date]] when all three are dicts. *)
Definition day_items (rb : json) (group_name date_str : string) : option (list (string * json)) :=
  match sub_dict rb "schedule" with
  | Some (JObj sk) =>
      match dict_get sk group_name with
      | Some (JObj gk) =>
          match dict_get gk date_str with Some (JObj dk) => Some dk | _ => None end
      | _ => None
      end
  | _ => None
  end.

(** Schedule, group and date entries absent, falsy or dicts, and (as in
    any dict) the day's keys distinct. *)
Definition schedule_wf (rb : json) (group_name date_str : string) : Prop :=
  obj_or_falsy (sub_dict rb "schedule") /\
  (forall s, sub_dict rb "schedule" = Some s -> obj_or_falsy (sub_dict s group_name)) /\
  (forall s gb, sub_dict rb "schedule" = Some s -> sub_dict s group_name = Some gb ->
                obj_or_falsy (sub_dict gb date_str)) /\
  (forall items, day_items rb group_name date_str = Some items -> NoDup (map fst items)).

Definition obj_items (o : option json) : list (string * json) :=
  match o with Some (JObj kvs) => kvs | _ => [] end.

Definition example_payload : json :=
  JObj [("date_today", JStr "2026-02-11");
        ("regions", JArr [JObj [("cpu", JStr "kyiv")];
                          JObj [("cpu", JStr "dnipropetrovska-oblast");
                                ("schedule", JObj [("2.1", JObj [])])]])].

(* ------------------------------------------------------------------ *)
(** ** Schedule fingerprint: [_slots_normalized_for_hash], [_hash_schedule] *)

Definition _slots_normalized_for_hash (d : date) (slots : SlotMap) : string :=
  String.concat "|"
    (map (fun t => let key := _time_str_from_dt t in
                   date_str d +:+ " " +:+ key +:+ "=" +:+ pretty (slot_status slots key))
         (_iter_half_hours (_date_to_dt d))).

(** [hashlib.sha256(s.encode("utf-8")).hexdigest()] is the parameter
    [sha256_hex]; UTF-8 encoding is injective, so it is taken on strings. *)
Definition _hash_schedule (sha256_hex : string -> string)
    (date_today : date) (slots_today : SlotMap)
    (date_tomorrow : date) (slots_tomorrow : SlotMap) : string :=
  sha256_hex (_slots_normalized_for_hash date_today slots_today +:+ "||" +:+
              _slots_normalized_for_hash date_tomorrow slots_tomorrow).

(* ------------------------------------------------------------------ *)
(** ** Coverage of the derived intervals *)

(** Some interval of [ivs] contains the instant [t] ([end] is exclusive). *)
Definition covered (ivs : list Interval) (t : Z) : Prop :=
  exists it, In it ivs /\ start it <= t < end_ it.

(** Both ends of [it] are half-hour boundaries counted from [ds]. *)
Definition on_grid (ds : Z) (it : Interval) : Prop :=
  exists a b : nat, start it = half_time ds a /\ end_ it = half_time ds b.

(** After [j] steps of the walk: the intervals are on the grid, and a
    boundary already visited is off exactly when a closed interval or the
    open outage covers it. *)
Definition cov_inv (slots : SlotMap) (ds : Z) (j : nat) (st : off_state) : Prop :=
  Forall (on_grid ds) (intervals st) /\
  forall k, (k < j)%nat ->
    (off_at slots (half_time ds k) = true <->
     covered (intervals st) (half_time ds k) \/
     (in_off st = true /\ exists s, off_start st = Some s /\ s <= half_time ds k)).

(* ------------------------------------------------------------------ *)
(** ** Text of the bot ([bot.py]) *)

Definition pylit (s : string) : pystr := utf8_decode (string_chars s).

(** [str(n)] for an [int]. *)
Definition py_int_str (n : Z) : pystr := map byte_val (string_chars (pretty n)).

Definition VALID_GROUPS : list pystr :=
  map pylit ["1.1"; "1.2"; "2.1"; "2.2"; "3.1"; "3.2";
             "4.1"; "4.2"; "5.1"; "5.2"; "6.1"; "6.2"]%string.

Fixpoint py_lstrip (s : pystr) : pystr :=
  match s with
  | c :: s' => if is_py_space_cp c then py_lstrip s' else s
  | [] => []
  end.

(** [s.strip()] *)
Definition py_strip (s : pystr) : pystr := rev (py_lstrip (rev (py_lstrip s))).

(** [s.startswith(p)] *)
Fixpoint py_startswith (p s : pystr) : bool :=
  match p, s with
  | [], _ => true
  | c :: p', d :: s' => (c =? d) && py_startswith p' s'
  | _ :: _, [] => false
  end.

(** [s.split(sep, 1)] for a one-character separator. *)
Fixpoint py_split1 (sep : Z) (s : pystr) : list pystr :=
  match s with
  | [] => [[]]
  | c :: s' =>
      if c =? sep then [[]; s']
      else match py_split1 sep s' with
           | h :: tl => (c :: h) :: tl
           | [] => [[c]]
           end
  end.

(** [_fmt_minutes(total_min)]; [//] and [%] on [int] are floor division and
    its remainder, [Z.div] and [Z.modulo]. *)
Definition _fmt_minutes (total_min : option Z) : pystr :=
  match total_min with
  | None => pylit "—"
  | Some n =>
      let h := n / 60 in
      let m := n mod 60 in
      if negb (h =? 0) && negb (m =? 0) then py_int_str h ++ pylit " год " ++ py_int_str m ++ pylit " хв"
      else if negb (h =? 0) then py_int_str h ++ pylit " год"
      else py_int_str m ++ pylit " хв"
  end.

Record button := mkButton { btn_text : pystr; callback_data : pystr }.

(** One button of the group picker; [current_group] is [None] for a chat
    whose [group_name] is still NULL. *)
Definition group_button (current_group : option pystr) (g : pystr) : button :=
  mkButton (if bool_decide (Some g = current_group) then pylit "✅ " ++ g else g)
           (pylit "group:" ++ g).

(** The loop of [build_groups_keyboard] over the remaining groups, with the
    pending [row] and the finished [rows]. *)
Fixpoint groups_rows_go (current_group : option pystr) (gs : list pystr)
    (row : list button) (rows : list (list button)) : list (list button) :=
  match gs with
  | [] => match row with [] => rows | _ => rows ++ [row] end
  | g :: gs' =>
      let row' := row ++ [group_button current_group g] in
      if Nat.eqb (length row') 2 then groups_rows_go current_group gs' [] (rows ++ [row'])
      else groups_rows_go current_group gs' row' rows
  end.

Definition build_groups_keyboard (current_group : option pystr) : list (list button) :=
  groups_rows_go current_group VALID_GROUPS [] []
  ++ [[mkButton (pylit "⬅️ Назад") (pylit "back_main")]].

(** What [on_callback] goes on to do after [get_or_create_chat], by the
    callback data of the pressed button. *)
Inductive callback_action :=
  | CbRefresh
  | CbToggleNotify
  | CbOpenGroups
  | CbBackMain
  | CbSelectGroup (g : pystr)
  | CbInvalidGroup
  | CbIndexError
  | CbNothing.

Definition on_callback_action (query_data : option pystr) : callback_action :=
  let data := match query_data with Some d => d | None => [] end in
  if bool_decide (data = pylit "refresh") then CbRefresh
  else if bool_decide (data = pylit "toggle_notify") then CbToggleNotify
  else if bool_decide (data = pylit "open_groups") then CbOpenGroups
  else if bool_decide (data = pylit "back_main") then CbBackMain
  else if py_startswith (pylit "group:") data then
    match nth_error (py_split1 58 data) 1 with
    | None => CbIndexError
    | Some part =>
        let g := py_strip part in
        if bool_decide (g ∈ VALID_GROUPS) then CbSelectGroup g else CbInvalidGroup
    end
  else CbNothing.

(** What [group_cmd] does after [get_or_create_chat], by [context.args]. *)
Inductive group_cmd_action :=
  | GcShowPicker
  | GcInvalidGroup
  | GcSetGroup (g : pystr).

Definition group_cmd_step (args : list pystr) : group_cmd_action :=
  match args with
  | [] => GcShowPicker
  | a :: _ =>
      let g := py_strip a in
      if bool_decide (g ∈ VALID_GROUPS) then GcSetGroup g else GcInvalidGroup
  end.

(* ------------------------------------------------------------------ *)
(** ** The [chats] table ([database.py]) *)

(** One row of [chats]; TEXT columns are [str]s, a NULL is [None]. *)
Record chat_row := mkChatRow {
  chat_id : Z;
  group_name : option pystr;
  group_selected : Z;
  notify_enabled : Z;
  last_schedule_hash : option pystr;
  last_message_id : option Z;
  last_notified_outage_start : option pystr;
  created_at : pystr;
  updated_at : pystr }.

(** The table, by its primary key [chat_id]. *)
Abbreviation chats_table := (gmap Z chat_row).

(** A key of the dict [_update] is given, with its value: a column of
    [chats] spelled as in the schema, with a value of the column's declared
    type ([int] within SQLite's 64 bits for INTEGER, [str] for TEXT; [None]
    is NULL), or an identifier that names no column of [chats].  SQLite's
    other spellings of a column (another letter case, [rowid] for
    [chat_id]) and values that its type affinity would convert are not
    represented. *)
Inductive field :=
  | FChatId (v : option Z)
  | FGroupName (g : option pystr)
  | FGroupSelected (v : option Z)
  | FNotifyEnabled (v : option Z)
  | FLastScheduleHash (h : option pystr)
  | FLastMessageId (v : option Z)
  | FLastNotifiedOutageStart (s : option pystr)
  | FCreatedAt (s : option pystr)
  | FUpdatedAt (s : option pystr)
  | FNoSuchColumn (key : pystr).

(** The errors of [UPDATE]: [sqlite3.OperationalError] ([no such column])
    and [sqlite3.IntegrityError] (a NOT NULL constraint, a non-integer
    [chat_id], a [chat_id] already taken). *)
Inductive db_error :=
  | OperationalError
  | IntegrityError.

Definition is_column (f : field) : bool :=
  match f with FNoSuchColumn _ => false | _ => true end.

(** The value satisfies the column's constraints: no NULL in a NOT NULL
    column nor in [chat_id], which as the [INTEGER PRIMARY KEY] is the rowid. *)
Definition satisfies_constraints (f : field) : bool :=
  match f with
  | FChatId None | FGroupSelected None | FNotifyEnabled None
  | FCreatedAt None | FUpdatedAt None => false
  | _ => true
  end.

Definition is_updated_at (f : field) : bool :=
  match f with FUpdatedAt _ => true | _ => false end.

(** [fields = dict(fields); fields["updated_at"] = _utc_iso()]: the entry
    keeps its place if present, else it is added at the end. *)
Definition stamp_updated_at (now : pystr) (fields : list field) : list field :=
  if existsb is_updated_at fields
  then map (fun f => if is_updated_at f then FUpdatedAt (Some now) else f) fields
  else fields ++ [FUpdatedAt (Some now)].

(** [SET k = v] on a row; a NULL for a column that refuses it is never
    written, [_update] raising first. *)
Definition set_field (r : chat_row) (f : field) : chat_row :=
  match f with
  | FChatId (Some v) => {| chat_id := v; group_name := group_name r; group_selected := group_selected r;
      notify_enabled := notify_enabled r; last_schedule_hash := last_schedule_hash r;
      last_message_id := last_message_id r; last_notified_outage_start := last_notified_outage_start r;
      created_at := created_at r; updated_at := updated_at r |}
  | FGroupName g => {| chat_id := chat_id r; group_name := g; group_selected := group_selected r;
      notify_enabled := notify_enabled r; last_schedule_hash := last_schedule_hash r;
      last_message_id := last_message_id r; last_notified_outage_start := last_notified_outage_start r;
      created_at := created_at r; updated_at := updated_at r |}
  | FGroupSelected (Some v) => {| chat_id := chat_id r; group_name := group_name r; group_selected := v;
      notify_enabled := notify_enabled r; last_schedule_hash := last_schedule_hash r;
      last_message_id := last_message_id r; last_notified_outage_start := last_notified_outage_start r;
      created_at := created_at r; updated_at := updated_at r |}
  | FNotifyEnabled (Some v) => {| chat_id := chat_id r; group_name := group_name r;
      group_selected := group_selected r; notify_enabled := v; last_schedule_hash := last_schedule_hash r;
      last_message_id := last_message_id r; last_notified_outage_start := last_notified_outage_start r;
      created_at := created_at r; updated_at := updated_at r |}
  | FLastScheduleHash h => {| chat_id := chat_id r; group_name := group_name r;
      group_selected := group_selected r; notify_enabled := notify_enabled r; last_schedule_hash := h;
      last_message_id := last_message_id r; last_notified_outage_start := last_notified_outage_start r;
      created_at := created_at r; updated_at := updated_at r |}
  | FLastMessageId v => {| chat_id := chat_id r; group_name := group_name r; group_selected := group_selected r;
      notify_enabled := notify_enabled r; last_schedule_hash := last_schedule_hash r;
      last_message_id := v; last_notified_outage_start := last_notified_outage_start r;
      created_at := created_at r; updated_at := updated_at r |}
  | FLastNotifiedOutageStart s => {| chat_id := chat_id r; group_name := group_name r;
      group_selected := group_selected r; notify_enabled := notify_enabled r;
      last_schedule_hash := last_schedule_hash r; last_message_id := last_message_id r;
      last_notified_outage_start := s; created_at := created_at r; updated_at := updated_at r |}
  | FCreatedAt (Some s) => {| chat_id := chat_id r; group_name := group_name r;
      group_selected := group_selected r; notify_enabled := notify_enabled r;
      last_schedule_hash := last_schedule_hash r; last_message_id := last_message_id r;
      last_notified_outage_start := last_notified_outage_start r; created_at := s;
      updated_at := updated_at r |}
  | FUpdatedAt (Some s) => {| chat_id := chat_id r; group_name := group_name r;
      group_selected := group_selected r; notify_enabled := notify_enabled r;
      last_schedule_hash := last_schedule_hash r; last_message_id := last_message_id r;
      last_notified_outage_start := last_notified_outage_start r; created_at := created_at r;
      updated_at := s |}
  | _ => r
  end.

(** The primary key of the row after [SET]: the [chat_id] assigned, else
    the one it had. *)
Definition new_chat_id (cid : Z) (fields : list field) : Z :=
  fold_left (fun k f => match f with FChatId (Some v) => v | _ => k end) fields cid.

(** [_update(chat_id, fields)] at the instant whose [_utc_iso()] is [now]:
    nothing for an empty dict, else [UPDATE chats SET ... WHERE chat_id = ?]
    with [updated_at] stamped. A key naming no column fails when the
    statement is prepared; no row matches when the chat is absent;
    otherwise the row gets the new values (under its new [chat_id] when one
    is assigned), unless a constraint fails. A failed statement changes
    nothing. *)
Definition _update (now : pystr) (cid : Z) (fields : list field) (t : chats_table)
    : outcome chats_table db_error :=
  match fields with
  | [] => Ok t
  | _ :: _ =>
      let fields := stamp_updated_at now fields in
      if negb (forallb is_column fields) then Err OperationalError
      else
        match t !! cid with
        | None => Ok t
        | Some r =>
            if negb (forallb satisfies_constraints fields) then Err IntegrityError
            else
              let r' := fold_left set_field fields r in
              let cid' := new_chat_id cid fields in
              if bool_decide (cid' = cid) then Ok (<[cid := r']> t)
              else match t !! cid' with
                   | Some _ => Err IntegrityError
                   | None => Ok (<[cid' := r']> (delete cid t))
                   end
        end
  end.

(** The keys the bot's own calls use: columns other than [chat_id], with
    values their constraints accept. *)
Definition plain_field (f : field) : bool :=
  match f with
  | FChatId _ | FNoSuchColumn _ => false
  | _ => satisfies_constraints f
  end.

(** [get_chat(chat_id)] *)
Definition get_chat (cid : Z) (t : chats_table) : option chat_row := t !! cid.

(** The row [INSERT INTO chats (chat_id, created_at, updated_at)] creates:
    the other columns take their defaults. *)
Definition new_chat_row (cid : Z) (now : pystr) : chat_row :=
  mkChatRow cid None 0 0 None None None now now.

(** [get_or_create_chat(chat_id)]: the row returned and the table after. *)
Definition get_or_create_chat (now : pystr) (cid : Z) (t : chats_table) : chat_row * chats_table :=
  match get_chat cid t with
  | Some row => (row, t)
  | None => let t' := <[cid := new_chat_row cid now]> t in
            match get_chat cid t' with
            | Some row => (row, t')
            | None => (new_chat_row cid now, t')
            end
  end.

(** [list_chats()] and [list_notify_chats()] ([SELECT] gives no order). *)
Definition list_chats (t : chats_table) : list chat_row := map snd (map_to_list t).

Definition list_notify_chats (t : chats_table) : list chat_row :=
  List.filter (fun r => notify_enabled r =? 1) (list_chats t).

Definition set_group (now : pystr) (cid : Z) (g : pystr) (t : chats_table)
    : outcome chats_table db_error :=
  _update now cid [FGroupName (Some g); FGroupSelected (Some 1)] t.

Definition set_notify (now : pystr) (cid : Z) (enabled : bool) (t : chats_table)
    : outcome chats_table db_error :=
  _update now cid [FNotifyEnabled (Some (if enabled then 1 else 0))] t.

(** [toggle_notify(chat_id)], [now1] and [now2] being the two [_utc_iso()]
    of [get_or_create_chat] and [_update]. *)
Definition toggle_notify (now1 now2 : pystr) (cid : Z) (t : chats_table)
    : outcome (bool * chats_table) db_error :=
  let (chat, t1) := get_or_create_chat now1 cid t in
  let new_value := if notify_enabled chat =? 1 then 0 else 1 in
  let* t2 := _update now2 cid [FNotifyEnabled (Some new_value)] t1 in
  Ok (new_value =? 1, t2).

Definition set_last_message_id (now : pystr) (cid message_id : Z) (t : chats_table)
    : outcome chats_table db_error :=
  _update now cid [FLastMessageId (Some message_id)] t.

Definition update_schedule_hash (now : pystr) (cid : Z) (schedule_hash : pystr) (t : chats_table)
    : outcome chats_table db_error :=
  _update now cid [FLastScheduleHash (Some schedule_hash)] t.

Definition set_last_notified_outage_start (now : pystr) (cid : Z) (outage_start_iso : pystr)
    (t : chats_table) : outcome chats_table db_error :=
  _update now cid [FLastNotifiedOutageStart (Some outage_start_iso)] t.

(** The branch [render_or_edit_main_message] takes on the chat it loaded:
    the group picker while no group is selected, else the schedule of
    [group_name]. *)
Inductive render_branch :=
  | ShowGroupPicker
  | RenderSchedule (group_name : option pystr).

Definition render_branch_of (chat : chat_row) : render_branch :=
  if group_selected chat =? 0 then ShowGroupPicker else RenderSchedule (group_name chat).

(** What the bot's own writes keep of a row: [notify_enabled] is 0 or 1,
    and a selected group is a valid one. *)
Definition chat_row_ok (r : chat_row) : Prop :=
  (notify_enabled r = 0 \/ notify_enabled r = 1) /\
  (group_selected r <> 0 -> exists g, group_name r = Some g /\ g ∈ VALID_GROUPS).

(** ... and of the table: besides, each row sits under its [chat_id]. *)
Definition chats_ok (t : chats_table) : Prop :=
  forall cid r, t !! cid = Some r -> chat_id r = cid /\ chat_row_ok r.

(* ------------------------------------------------------------------ *)
(** ** The admin report ([info_cmd]) *)

Definition info_allowed (admin_id cid : Z) : bool :=
  negb ((admin_id <=? 0) || negb (cid =? admin_id)).

(** [counts[g] = counts.get(g, 0) + 1] on a dict kept in insertion order. *)
Fixpoint dict_incr (g : option pystr) (counts : list (option pystr * Z)) : list (option pystr * Z) :=
  match counts with
  | [] => [(g, 1)]
  | (k, n) :: rest => if bool_decide (k = g) then (k, n + 1) :: rest else (k, n) :: dict_incr g rest
  end.

(** [counts.get(g, 0)] *)
Fixpoint counts_get (g : option pystr) (counts : list (option pystr * Z)) : Z :=
  match counts with
  | [] => 0
  | (k, n) :: rest => if bool_decide (k = g) then n else counts_get g rest
  end.

Definition group_counts (chats : list chat_row) : list (option pystr * Z) :=
  fold_left (fun counts c => dict_incr (group_name c) counts) chats [].

(** [sorted(items, key=lambda x: x[1], reverse=True)]: a stable sort by
    decreasing count (ties keep their order), as an insertion sort. *)
Fixpoint insert_desc (x : option pystr * Z) (l : list (option pystr * Z)) : list (option pystr * Z) :=
  match l with
  | [] => [x]
  | y :: l' => if snd y <? snd x then x :: l else y :: insert_desc x l'
  end.

Definition sort_desc (l : list (option pystr * Z)) : list (option pystr * Z) :=
  fold_left (fun acc x => insert_desc x acc) l [].

Definition info_top (chats : list chat_row) : list (option pystr * Z) :=
  firstn 5 (sort_desc (group_counts chats)).

(* ================================================================== *)
(** * Proofs *)

(** ** The 48 half-hour boundaries *)

Lemma iter_half_hours_loop_S (f : nat) (cur end_ : Z) :
  iter_half_hours_loop (S f) cur end_
  = if cur <? end_ then cur :: iter_half_hours_loop f (cur + HALF_HOUR) end_ else [].
Proof. reflexivity. Qed.

Lemma iter_half_hours_loop_eq (n : nat) (cur : Z) :
  iter_half_hours_loop (S n) cur (cur + Z.of_nat n * HALF_HOUR)
  = map (fun j => cur + Z.of_nat j * HALF_HOUR) (seq 0 n).
Proof.
  revert cur; induction n as [|n IH]; intros cur; rewrite iter_half_hours_loop_S.
  - replace (cur <? cur + Z.of_nat 0 * HALF_HOUR) with false by (symmetry; apply Z.ltb_ge; lia).
    reflexivity.
  - replace (cur <? cur + Z.of_nat (S n) * HALF_HOUR) with true
      by (symmetry; apply Z.ltb_lt; unfold HALF_HOUR, MIN, SEC; lia).
    replace (cur + Z.of_nat (S n) * HALF_HOUR)
      with (cur + HALF_HOUR + Z.of_nat n * HALF_HOUR) by lia.
    rewrite IH. cbn [seq map]. f_equal; [lia|].
    rewrite <- seq_shift, map_map. apply map_ext. intros j. lia.
Qed.

Lemma iter_half_hours_eq (ds : Z) :
  _iter_half_hours ds = map (half_time ds) (seq 0 48).
Proof.
  unfold _iter_half_hours.
  replace (ds + DAY) with (ds + Z.of_nat 48 * HALF_HOUR)
    by (unfold DAY, HOUR, HALF_HOUR; lia).
  apply iter_half_hours_loop_eq.
Qed.

Lemma combine_map_self {A B} (f : A -> B) (l : list A) :
  combine l (map f l) = map (fun x => (x, f x)) l.
Proof. induction l as [|a l IH]; cbn; [reflexivity | now rewrite IH]. Qed.

Lemma enumerate_half_hours (ds : Z) :
  enumerate (_iter_half_hours ds) = map (fun j => (j, half_time ds j)) (seq 0 48).
Proof.
  unfold enumerate. rewrite iter_half_hours_eq, length_map, length_seq.
  apply combine_map_self.
Qed.

Lemma off_walk_eq (d : date) (slots : SlotMap) :
  off_walk d slots
  = fold_left (off_step slots (_date_to_dt d) 48)
      (map (fun j => (j, half_time (_date_to_dt d) j)) (seq 0 48)) init_off_state.
Proof.
  unfold off_walk. rewrite enumerate_half_hours, iter_half_hours_eq, length_map, length_seq.
  reflexivity.
Qed.

(** ** Lists of intervals *)

Lemma StronglySorted_snoc {A} (R : A -> A -> Prop) (l : list A) (x : A) :
  StronglySorted R l -> Forall (fun a => R a x) l -> StronglySorted R (l ++ [x]).
Proof.
  induction l as [|a l IH]; intros Hs Hf; cbn.
  - repeat constructor.
  - inversion Hs; subst. inversion Hf; subst. constructor.
    + now apply IH.
    + apply Forall_app; split; [assumption | now constructor].
Qed.

Lemma total_minutes_go (ivs : list Interval) (acc : Z) :
  fold_left (fun total it => total + (end_ it - start it) / MIN) ivs acc
  = acc + _total_minutes ivs.
Proof.
  unfold _total_minutes. revert acc.
  induction ivs as [|x ivs IH]; intros acc; cbn; [lia|].
  rewrite (IH (acc + _)), (IH (0 + _)). lia.
Qed.

Lemma total_minutes_snoc (ivs : list Interval) (x : Interval) :
  _total_minutes (ivs ++ [x]) = _total_minutes ivs + (end_ x - start x) / MIN.
Proof.
  unfold _total_minutes at 1. rewrite fold_left_app. cbn.
  now rewrite total_minutes_go.
Qed.

Lemma walk_prefix_S (slots : SlotMap) (ds : Z) (j : nat) :
  walk_prefix slots ds (S j)
  = off_step slots ds 48 (walk_prefix slots ds j) (j, half_time ds j).
Proof.
  unfold walk_prefix. rewrite seq_S, map_app, fold_left_app. reflexivity.
Qed.

Lemma off_count_S (slots : SlotMap) (ds : Z) (j : nat) :
  off_count slots ds (S j)
  = (off_count slots ds j + if off_at slots (half_time ds j) then 1 else 0)%nat.
Proof.
  unfold off_count. rewrite seq_S, List.filter_app, length_app. cbn.
  destruct (off_at slots (half_time ds j)); reflexivity.
Qed.

Lemma half_time_S (ds : Z) (j : nat) : half_time ds (S j) = half_time ds j + HALF_HOUR.
Proof. unfold half_time. lia. Qed.

Lemma half_time_lt (ds : Z) (k j : nat) : (k < j)%nat -> half_time ds k < half_time ds j.
Proof. unfold half_time, HALF_HOUR, MIN, SEC. lia. Qed.

Lemma half_time_ge (ds : Z) (k : nat) : ds <= half_time ds k.
Proof. unfold half_time, HALF_HOUR, MIN, SEC. lia. Qed.

Lemma half_time_diff_min (ds : Z) (k j : nat) :
  (half_time ds j - half_time ds k) / MIN = (Z.of_nat j - Z.of_nat k) * 30.
Proof.
  unfold half_time, HALF_HOUR.
  replace (ds + Z.of_nat j * (30 * MIN) - (ds + Z.of_nat k * (30 * MIN)))
    with ((Z.of_nat j - Z.of_nat k) * 30 * MIN) by lia.
  apply Z.div_mul. unfold MIN, SEC. lia.
Qed.

Lemma walk_inv_0 (slots : SlotMap) (ds : Z) : walk_inv slots ds 0 init_off_state.
Proof.
  unfold walk_inv, init_off_state, open_len, off_count; cbn.
  repeat split; try constructor; try discriminate; lia.
Qed.

Ltac time_arith :=
  unfold half_time, HALF_HOUR, MIN, SEC in *; lia.

Lemma walk_inv_nil_at_0 (ds : Z) (acc : list Interval) :
  Forall (fun it => start it < end_ it) acc ->
  Forall (fun it => ds <= start it /\ end_ it < half_time ds 0) acc -> acc = [].
Proof.
  destruct acc as [|h acc]; [reflexivity|]. intros Ha Hc.
  inversion Ha; inversion Hc; subst. unfold half_time in *. lia.
Qed.

Lemma walk_inv_step (slots : SlotMap) (ds : Z) (j : nat) (st : off_state) :
  (j < 47)%nat -> walk_inv slots ds j st ->
  walk_inv slots ds (S j) (off_step slots ds 48 st (j, half_time ds j)).
Proof.
  intros Hj (Ha & Hb & Hc & Hd & He & Hf & Hg).
  unfold off_step. cbv beta iota zeta.
  change (Z.eqb (slot_status slots (_time_str_from_dt (half_time ds j))) 2)
    with (off_at slots (half_time ds j)).
  replace (Nat.eqb j (48 - 1)) with false by (symmetry; apply Nat.eqb_neq; lia).
  unfold walk_inv. rewrite off_count_S.
  destruct st as [io os acc]; cbn [in_off off_start intervals] in *.
  destruct (off_at slots (half_time ds j)) eqn:Eo; destruct io;
    cbn [andb negb in_off off_start intervals].
  - (* off, already in an outage *)
    destruct (He eq_refl) as (k & Hk & Hos & Hlt). subst os.
    unfold open_len in *; cbn [in_off off_start intervals] in *.
    refine (conj Ha (conj Hb (conj _ (conj _ (conj _ (conj _ _)))))).
    + eapply Forall_impl; [exact Hc|]. intros it [? ?]. rewrite half_time_S. split; time_arith.
    + rewrite half_time_S, Nat2Z.inj_add. time_arith.
    + intros _. exists k. split; [lia|auto].
    + discriminate.
    + intros H0 _. apply Hg; [exact H0|lia].
  - (* off, opening an outage at [t] *)
    rewrite (Hf eq_refl) in *. unfold open_len in *; cbn [in_off off_start intervals] in *.
    refine (conj Ha (conj Hb (conj _ (conj _ (conj _ (conj _ _)))))).
    + eapply Forall_impl; [exact Hc|]. intros it [? ?]. rewrite half_time_S. split; time_arith.
    + rewrite half_time_S, Nat2Z.inj_add. time_arith.
    + intros _. exists j. split; [lia|]. split; [reflexivity|].
      eapply Forall_impl; [exact Hc|]. intros it [? ?]. assumption.
    + discriminate.
    + intros H0 _. destruct j as [|j].
      * rewrite (walk_inv_nil_at_0 ds acc Ha Hc). reflexivity.
      * specialize (Hg H0 ltac:(lia)). destruct acc; [discriminate|exact Hg].
  - (* on, closing the outage at [t] *)
    destruct (He eq_refl) as (k & Hk & Hos & Hlt). subst os.
    unfold open_len in *; cbn [in_off off_start intervals] in *.
    refine (conj _ (conj _ (conj _ (conj _ (conj _ (conj _ _)))))).
    + apply Forall_app. split; [exact Ha|]. constructor; [|constructor].
      cbn. apply half_time_lt; lia.
    + apply StronglySorted_snoc; [exact Hb|exact Hlt].
    + apply Forall_app. split.
      * eapply Forall_impl; [exact Hc|]. intros it [? ?]. rewrite half_time_S. split; time_arith.
      * constructor; [|constructor]. cbn. split; [apply half_time_ge|].
        rewrite half_time_S. time_arith.
    + rewrite total_minutes_snoc. cbn [start end_]. rewrite half_time_diff_min, Nat.add_0_r.
      time_arith.
    + discriminate.
    + reflexivity.
    + intros H0 _. specialize (Hg H0 ltac:(lia)).
      destruct acc as [|h acc]; cbn; [congruence|exact Hg].
  - (* on, no outage *)
    rewrite (Hf eq_refl) in *. unfold open_len in *; cbn [in_off off_start intervals] in *.
    refine (conj Ha (conj Hb (conj _ (conj _ (conj _ (conj _ _)))))).
    + eapply Forall_impl; [exact Hc|]. intros it [? ?]. rewrite half_time_S. split; time_arith.
    + rewrite Nat.add_0_r. lia.
    + discriminate.
    + reflexivity.
    + intros H0 _. destruct j as [|j]; [congruence|].
      apply Hg; [exact H0|lia].
Qed.

Lemma walk_inv_prefix (slots : SlotMap) (ds : Z) (j : nat) :
  (j <= 47)%nat -> walk_inv slots ds j (walk_prefix slots ds j).
Proof.
  induction j as [|j IH]; intros Hj.
  - apply walk_inv_0.
  - rewrite walk_prefix_S. apply walk_inv_step; [lia|]. apply IH. lia.
Qed.

Lemma day_end_half_time (ds : Z) : ds + DAY = half_time ds 48.
Proof. unfold half_time, DAY, HOUR, HALF_HOUR. lia. Qed.

Lemma walk_result_full (slots : SlotMap) (ds : Z) :
  walk_result slots ds (walk_prefix slots ds 48).
Proof.
  rewrite walk_prefix_S.
  destruct (walk_inv_prefix slots ds 47 ltac:(lia)) as (Ha & Hb & Hc & Hd & He & Hf & Hg).
  revert Ha Hb Hc Hd He Hf Hg. generalize (walk_prefix slots ds 47). intros st Ha Hb Hc Hd He Hf Hg.
  unfold off_step. cbv beta iota zeta.
  change (Z.eqb (slot_status slots (_time_str_from_dt (half_time ds 47))) 2)
    with (off_at slots (half_time ds 47)).
  replace (Nat.eqb 47 (48 - 1)) with true by reflexivity.
  unfold walk_result. rewrite off_count_S, day_end_half_time.
  replace (half_time ds 0) with ds in * by (unfold half_time; lia).
  destruct st as [io os acc]; cbn [in_off off_start intervals] in *.
  destruct (off_at slots (half_time ds 47)) eqn:Eo; destruct io;
    cbn [andb negb in_off off_start intervals].
  - (* still off at 23:30, the outage closes at the next midnight *)
    destruct (He eq_refl) as (k & Hk & Hos & Hlt). subst os.
    unfold open_len in *; cbn [in_off off_start intervals] in *.
    refine (conj _ (conj _ (conj _ (conj _ (conj _ _))))).
    + apply Forall_app. split; [exact Ha|]. constructor; [|constructor].
      cbn. apply half_time_lt; lia.
    + apply StronglySorted_snoc; [exact Hb|exact Hlt].
    + apply Forall_app. split.
      * eapply Forall_impl; [exact Hc|]. intros it [? ?]. split; time_arith.
      * constructor; [|constructor]. cbn. split; [apply half_time_ge|lia].
    + rewrite total_minutes_snoc. cbn [start end_]. rewrite half_time_diff_min, Nat2Z.inj_add.
      time_arith.
    + intros _. exists (half_time ds k). apply last_snoc.
    + intros H0. specialize (Hg H0 ltac:(lia)).
      destruct acc as [|h acc]; cbn; [congruence|exact Hg].
  - (* the outage opens at 23:30 and closes at the next midnight *)
    rewrite (Hf eq_refl) in *. unfold open_len in *; cbn [in_off off_start intervals] in *.
    refine (conj _ (conj _ (conj _ (conj _ (conj _ _))))).
    + apply Forall_app. split; [exact Ha|]. constructor; [|constructor].
      cbn. apply half_time_lt; lia.
    + apply StronglySorted_snoc; [exact Hb|].
      eapply Forall_impl; [exact Hc|]. intros it [? ?]. assumption.
    + apply Forall_app. split.
      * eapply Forall_impl; [exact Hc|]. intros it [? ?]. split; time_arith.
      * constructor; [|constructor]. cbn. split; [apply half_time_ge|lia].
    + rewrite total_minutes_snoc. cbn [start end_]. rewrite half_time_diff_min, Nat2Z.inj_add.
      time_arith.
    + intros _. exists (half_time ds 47). apply last_snoc.
    + intros H0. specialize (Hg H0 ltac:(lia)).
      destruct acc as [|h acc]; cbn; [discriminate|exact Hg].
  - (* on at 23:30, the outage closes there *)
    destruct (He eq_refl) as (k & Hk & Hos & Hlt). subst os.
    unfold open_len in *; cbn [in_off off_start intervals] in *.
    refine (conj _ (conj _ (conj _ (conj _ (conj _ _))))).
    + apply Forall_app. split; [exact Ha|]. constructor; [|constructor].
      cbn. apply half_time_lt; lia.
    + apply StronglySorted_snoc; [exact Hb|exact Hlt].
    + apply Forall_app. split.
      * eapply Forall_impl; [exact Hc|]. intros it [? ?]. split; time_arith.
      * constructor; [|constructor]. cbn. split; [apply half_time_ge|time_arith].
    + rewrite total_minutes_snoc. cbn [start end_]. rewrite half_time_diff_min, Nat.add_0_r.
      time_arith.
    + discriminate.
    + intros H0. specialize (Hg H0 ltac:(lia)).
      destruct acc as [|h acc]; cbn; [congruence|exact Hg].
  - (* no outage open at the end of the day *)
    rewrite (Hf eq_refl) in *. unfold open_len in *; cbn [in_off off_start intervals] in *.
    refine (conj Ha (conj Hb (conj _ (conj _ (conj _ _))))).
    + eapply Forall_impl; [exact Hc|]. intros it [? ?]. split; time_arith.
    + rewrite Nat.add_0_r. lia.
    + discriminate.
    + intros H0. specialize (Hg H0 ltac:(lia)).
      destruct acc as [|h acc]; [discriminate|exact Hg].
Qed.

Lemma off_walk_prefix (d : date) (slots : SlotMap) :
  off_walk d slots = walk_prefix slots (_date_to_dt d) 48.
Proof. apply off_walk_eq. Qed.

Lemma off_walk_result (d : date) (slots : SlotMap) :
  walk_result slots (_date_to_dt d) (off_walk d slots).
Proof. rewrite off_walk_prefix. apply walk_result_full. Qed.

(** ** Slot keys depend on the time of day only *)

Lemma time_str_shift (day t : Z) :
  _time_str_from_dt (day * DAY + t) = _time_str_from_dt t.
Proof.
  unfold _time_str_from_dt, dt_hour, dt_minute. f_equal; [|f_equal; f_equal].
  - replace (day * DAY + t) with (t + (day * 24) * HOUR) by (unfold DAY; lia).
    rewrite Z.div_add by (unfold HOUR, MIN, SEC; lia).
    replace (day * 24) with (day * 24) by reflexivity.
    now rewrite Z.mod_add by lia.
  - replace (day * DAY + t) with (t + (day * 1440) * MIN) by (unfold DAY, HOUR; lia).
    rewrite Z.div_add by (unfold MIN, SEC; lia).
    replace (day * 1440) with ((day * 24) * 60) by lia.
    now rewrite Z.mod_add by lia.
Qed.

Lemma off_step_shift (slots : SlotMap) (day : Z) (n i : nat) (t : Z) (st : off_state) :
  off_step slots (day * DAY) n (shift_state (day * DAY) st) (i, day * DAY + t)
  = shift_state (day * DAY) (off_step slots 0 n st (i, t)).
Proof.
  unfold off_step. cbv beta iota zeta. rewrite time_str_shift.
  destruct st as [io os acc]; cbn [shift_state in_off off_start intervals].
  destruct (Z.eqb (slot_status slots (_time_str_from_dt t)) 2), io, os as [s|],
    (Nat.eqb i (n - 1));
    unfold shift_state; cbn [andb negb in_off off_start intervals option_map];
    rewrite ?map_app; cbn [map shift_iv start end_]; repeat f_equal; lia.
Qed.

Lemma walk_prefix_shift (slots : SlotMap) (day : Z) (j : nat) :
  walk_prefix slots (day * DAY) j = shift_state (day * DAY) (walk_prefix slots 0 j).
Proof.
  induction j as [|j IH].
  - reflexivity.
  - rewrite !walk_prefix_S, IH.
    replace (half_time (day * DAY) j) with (day * DAY + half_time 0 j)
      by (unfold half_time; lia).
    apply off_step_shift.
Qed.

Lemma slots_to_off_intervals_shift (d : date) (slots : SlotMap) :
  _slots_to_off_intervals d slots
  = map (shift_iv (_date_to_dt d)) (intervals (walk_prefix slots 0 48)).
Proof.
  unfold _slots_to_off_intervals. rewrite off_walk_prefix. unfold _date_to_dt.
  now rewrite walk_prefix_shift.
Qed.

(** ** Growth of the interval list along the walk *)

Lemma off_step_extends (slots : SlotMap) (ds : Z) (n : nat) (st : off_state) (it : nat * Z) :
  exists l', intervals (off_step slots ds n st it) = intervals st ++ l'.
Proof.
  destruct it as [i t]. unfold off_step. cbv beta iota zeta.
  destruct st as [io os acc]; cbn [in_off off_start intervals].
  destruct (Z.eqb (slot_status slots (_time_str_from_dt t)) 2), io, os as [s|], (Nat.eqb i (n - 1));
    cbn [andb negb in_off off_start intervals];
    first [ exists []; now rewrite app_nil_r
          | eexists; reflexivity
          | eexists; rewrite <- app_assoc; reflexivity ].
Qed.

Lemma walk_prefix_extends (slots : SlotMap) (ds : Z) (j k : nat) :
  exists l', intervals (walk_prefix slots ds (k + j)) = intervals (walk_prefix slots ds j) ++ l'.
Proof.
  induction k as [|k IH].
  - exists []. now rewrite app_nil_r.
  - destruct IH as [l1 E1]. cbn [Nat.add]. rewrite walk_prefix_S.
    destruct (off_step_extends slots ds 48 (walk_prefix slots ds (k + j)) ((k + j)%nat, half_time ds (k + j)))
      as [l2 E2].
    rewrite E2, E1, <- app_assoc. eexists; reflexivity.
Qed.

Lemma off_at_shift (slots : SlotMap) (day : Z) (j : nat) :
  off_at slots (half_time (day * DAY) j) = off_at slots (half_time 0 j).
Proof.
  unfold off_at. f_equal. f_equal.
  replace (half_time (day * DAY) j) with (day * DAY + half_time 0 j) by (unfold half_time; lia).
  apply time_str_shift.
Qed.

Lemma off_at_slot_key (slots : SlotMap) (d : date) (j : nat) :
  off_at slots (half_time (_date_to_dt d) j) = Z.eqb (slot_status slots (slot_key j)) 2.
Proof. unfold _date_to_dt. rewrite off_at_shift. reflexivity. Qed.

Lemma length_filter_map {A B} (f : B -> bool) (g : A -> B) (l : list A) :
  length (List.filter f (map g l)) = length (List.filter (fun x => f (g x)) l).
Proof.
  induction l as [|a l IH]; cbn; [reflexivity|].
  destruct (f (g a)); cbn; congruence.
Qed.

Lemma count_off_slots_eq (d : date) (slots : SlotMap) :
  count_off_slots d slots = off_count slots (_date_to_dt d) 48.
Proof.
  unfold count_off_slots, off_count. rewrite iter_half_hours_eq, length_filter_map.
  reflexivity.
Qed.

(* ================================================================== *)
(** * Claims on the interval deriver *)

(** C1: when the walk over the 48 boundaries ends with [in_off] still set,
    the last interval ends at midnight of the next day
    ([day_start + timedelta(days=1)]); the map whose only entry is
    ["23:30"]=2 yields exactly the interval 23:30-24:00, 30 minutes long. *)
Theorem C1_open_outage_closes_at_midnight :
  (forall (d : date) (slots : SlotMap),
     in_off (off_walk d slots) = true ->
     exists s, last (_slots_to_off_intervals d slots)
               = Some (mkInterval s (_date_to_dt d + DAY))) /\
  (forall d : date,
     _slots_to_off_intervals d (<["23:30" := 2]> ∅)
       = [mkInterval (_date_to_dt d + 23 * HOUR + 30 * MIN) (_date_to_dt d + DAY)] /\
     _total_minutes (_slots_to_off_intervals d (<["23:30" := 2]> ∅)) = 30).
Proof.
  split.
  - intros d slots Hin.
    destruct (off_walk_result d slots) as (_ & _ & _ & _ & He & _).
    exact (He Hin).
  - intros d. rewrite slots_to_off_intervals_shift.
    assert (E : intervals (walk_prefix (<["23:30" := 2]> ∅) 0 48)
                = [mkInterval (23 * HOUR + 30 * MIN) DAY]) by (vm_compute; reflexivity).
    rewrite E. cbn [map]. unfold shift_iv. cbn [start end_]. split.
    + f_equal. f_equal. lia.
    + unfold _total_minutes. cbn [fold_left start end_].
      replace (_date_to_dt d + DAY - (_date_to_dt d + (23 * HOUR + 30 * MIN)))
        with (30 * MIN) by (unfold DAY, HOUR; lia).
      vm_compute. reflexivity.
Qed.

(** C2 (as stated): the total is 1800 times the number of off slots.  It is
    30 times that number: at the map with the single entry ["10:00"]=2 the
    total is 30 minutes while 1800 times the count is 1800. *)
Lemma C2_counterexample :
  _total_minutes (_slots_to_off_intervals example_day (<["10:00" := 2]> ∅))
  <> 1800 * Z.of_nat (count_off_slots example_day (<["10:00" := 2]> ∅)).
Proof. vm_compute. discriminate. Qed.

(** C2 (amended): the total minutes of the derived intervals is a
    non-negative multiple of 30 and equals 30 times the number of the 48
    keys whose status is 2 (1800 times that number in seconds). *)
Theorem C2_total_minutes_counts_off_slots (d : date) (slots : SlotMap) :
  let total := _total_minutes (_slots_to_off_intervals d slots) in
  0 <= total /\ total mod 30 = 0 /\
  total = 30 * Z.of_nat (count_off_slots d slots).
Proof.
  cbv zeta. rewrite count_off_slots_eq.
  destruct (off_walk_result d slots) as (_ & _ & _ & Hd & _).
  unfold _slots_to_off_intervals.
  assert (E : _total_minutes (intervals (off_walk d slots))
              = 30 * Z.of_nat (off_count slots (_date_to_dt d) 48))
    by (unfold HALF_HOUR, MIN, SEC in Hd; lia).
  rewrite E. split; [lia|]. split; [|reflexivity].
  rewrite Z.mul_comm. apply Z_mod_mult.
Qed.

Lemma StronglySorted_weaken {A} (R S : A -> A -> Prop) (l : list A) :
  (forall a b, R a b -> S a b) -> StronglySorted R l -> StronglySorted S l.
Proof.
  intros HRS. induction 1 as [|a l Hl IH Hf]; constructor; [exact IH|].
  eapply Forall_impl; [exact Hf|]. intros x. apply HRS.
Qed.

Lemma separated_sorted_by_start (l : list Interval) :
  Forall (fun it => start it < end_ it) l ->
  StronglySorted (fun a b => end_ a < start b) l ->
  StronglySorted (fun a b => start a < start b) l.
Proof.
  intros Hp. induction 1 as [|a l Hl IH Hf]; inversion Hp; subst; constructor.
  - now apply IH.
  - eapply Forall_impl; [exact Hf|]. cbn. intros x Hx. lia.
Qed.

(** ** Single steps of the walk *)

Lemma off_step_open (slots : SlotMap) (ds : Z) (n i : nat) (t : Z) (st : off_state) :
  in_off st = false -> off_at slots t = true -> Nat.eqb i (n - 1) = false ->
  off_step slots ds n st (i, t) = mkOffState true (Some t) (intervals st).
Proof.
  intros Hin Ho Hi. unfold off_at in Ho. unfold off_step. cbv beta iota zeta.
  rewrite Ho, Hin, Hi. reflexivity.
Qed.

Lemma off_step_stay (slots : SlotMap) (ds : Z) (n i : nat) (t : Z) (st : off_state) :
  in_off st = true -> off_at slots t = true -> Nat.eqb i (n - 1) = false ->
  off_step slots ds n st (i, t) = st.
Proof.
  intros Hin Ho Hi. unfold off_at in Ho. unfold off_step. cbv beta iota zeta.
  rewrite Ho, Hin. cbn [andb negb]. rewrite Hin, Hi. reflexivity.
Qed.

Lemma off_step_close (slots : SlotMap) (ds : Z) (n i : nat) (s t : Z) (st : off_state) :
  in_off st = true -> off_start st = Some s -> off_at slots t = false ->
  Nat.eqb i (n - 1) = false ->
  off_step slots ds n st (i, t) = mkOffState false None (intervals st ++ [mkInterval s t]).
Proof.
  intros Hin Hs Ho Hi. unfold off_at in Ho. unfold off_step. cbv beta iota zeta.
  rewrite Ho. cbn [andb negb]. rewrite Hin, Hs, Hi. reflexivity.
Qed.

Lemma off_step_on (slots : SlotMap) (ds : Z) (n i : nat) (t : Z) (st : off_state) :
  off_at slots t = false -> Nat.eqb i (n - 1) = false ->
  in_off (off_step slots ds n st (i, t)) = false.
Proof.
  intros Ho Hi. unfold off_at in Ho. unfold off_step. cbv beta iota zeta.
  rewrite Ho, Hi. destruct st as [[|] [s|] acc]; reflexivity.
Qed.

Lemma walk_prefix_merges_two (slots : SlotMap) (ds : Z) (j : nat) :
  (j + 3 < 47)%nat ->
  off_at slots (half_time ds j) = false ->
  off_at slots (half_time ds (S j)) = true ->
  off_at slots (half_time ds (S (S j))) = true ->
  off_at slots (half_time ds (S (S (S j)))) = false ->
  intervals (walk_prefix slots ds (S (S (S (S j)))))
  = intervals (walk_prefix slots ds (S j))
    ++ [mkInterval (half_time ds (S j)) (half_time ds (S (S (S j))))].
Proof.
  intros Hj H0 H1 H2 H3.
  assert (Hn : forall k, (k < 47)%nat -> Nat.eqb k (48 - 1) = false)
    by (intros k Hk; apply Nat.eqb_neq; lia).
  assert (Hin : in_off (walk_prefix slots ds (S j)) = false)
    by (rewrite walk_prefix_S; apply off_step_on; [exact H0|apply Hn; lia]).
  rewrite (walk_prefix_S _ _ (S (S (S j)))), (walk_prefix_S _ _ (S (S j))),
    (walk_prefix_S _ _ (S j)).
  rewrite (off_step_open slots ds 48 (S j) _ _ Hin H1 (Hn (S j) ltac:(lia))).
  set (st := mkOffState true (Some (half_time ds (S j))) (intervals (walk_prefix slots ds (S j)))).
  rewrite (off_step_stay slots ds 48 (S (S j)) _ st eq_refl H2 (Hn (S (S j)) ltac:(lia))).
  rewrite (off_step_close slots ds 48 (S (S (S j))) _ _ st eq_refl eq_refl H3
             (Hn (S (S (S j))) ltac:(lia))).
  reflexivity.
Qed.

Lemma slot_key_values :
  slot_key 0 = "00:00" /\ slot_key 19 = "09:30" /\ slot_key 20 = "10:00" /\
  slot_key 21 = "10:30" /\ slot_key 22 = "11:00" /\ slot_key 47 = "23:30".
Proof. vm_compute. repeat split. Qed.

(** C9: the derived intervals are non-empty, ordered by start, pairwise
    non-overlapping and maximally merged (no end equals a later start); off
    slots at "10:00" and "10:30" between on slots at "09:30" and "11:00"
    give the one interval 10:00-11:00, and with no other entry that is the
    whole list. *)
Theorem C9_intervals_sorted_disjoint_merged (d : date) (slots : SlotMap) :
  let ds := _date_to_dt d in
  let l := _slots_to_off_intervals d slots in
  Forall (fun it => start it < end_ it) l /\
  StronglySorted (fun a b => start a < start b) l /\
  StronglySorted (fun a b => end_ a <= start b) l /\
  StronglySorted (fun a b => end_ a <> start b) l /\
  (slot_status slots "09:30" = 1 -> slot_status slots "10:00" = 2 ->
   slot_status slots "10:30" = 2 -> slot_status slots "11:00" = 1 ->
   In (mkInterval (ds + 10 * HOUR) (ds + 11 * HOUR)) l) /\
  _slots_to_off_intervals d
    (<["09:30" := 1]> (<["10:00" := 2]> (<["10:30" := 2]> (<["11:00" := 1]> ∅))))
  = [mkInterval (ds + 10 * HOUR) (ds + 11 * HOUR)].
Proof.
  cbv zeta.
  destruct (off_walk_result d slots) as (Ha & Hb & _).
  unfold _slots_to_off_intervals at 1 2 3 4 5.
  refine (conj Ha (conj _ (conj _ (conj _ (conj _ _))))).
  - now apply separated_sorted_by_start.
  - eapply StronglySorted_weaken; [|exact Hb]. cbn. intros. lia.
  - eapply StronglySorted_weaken; [|exact Hb]. cbn. intros. lia.
  - intros H19 H20 H21 H22.
    destruct slot_key_values as (_ & K19 & K20 & K21 & K22 & _).
    rewrite off_walk_prefix.
    destruct (walk_prefix_extends slots (_date_to_dt d) 23 25) as [l' E].
    replace (25 + 23)%nat with 48%nat in E by reflexivity. rewrite E.
    rewrite (walk_prefix_merges_two slots (_date_to_dt d) 19);
      [| lia
       | rewrite off_at_slot_key, K19, H19; reflexivity
       | rewrite off_at_slot_key, K20, H20; reflexivity
       | rewrite off_at_slot_key, K21, H21; reflexivity
       | rewrite off_at_slot_key, K22, H22; reflexivity].
    apply in_or_app. left. apply in_or_app. right. left.
    unfold half_time. f_equal; unfold HALF_HOUR, HOUR; lia.
  - rewrite slots_to_off_intervals_shift.
    assert (E : intervals (walk_prefix
                  (<["09:30" := 1]> (<["10:00" := 2]> (<["10:30" := 2]> (<["11:00" := 1]> ∅)))) 0 48)
                = [mkInterval (10 * HOUR) (11 * HOUR)]) by (vm_compute; reflexivity).
    rewrite E. reflexivity.
Qed.

(** ** Sorting *)

Lemma insert_by_start_perm (x : Interval) (l : list Interval) :
  Permutation (insert_by_start x l) (x :: l).
Proof.
  induction l as [|y l IH]; cbn; [reflexivity|].
  destruct (start x <? start y); [reflexivity|].
  rewrite IH. apply perm_swap.
Qed.

Lemma sorted_by_start_go_perm (l acc : list Interval) :
  Permutation (fold_left (fun acc x => insert_by_start x acc) l acc) (l ++ acc).
Proof.
  revert acc; induction l as [|a l IH]; intros acc; cbn; [reflexivity|].
  rewrite IH, insert_by_start_perm. symmetry. apply Permutation_middle.
Qed.

Lemma sorted_by_start_In (l : list Interval) (x : Interval) :
  In x (sorted_by_start l) <-> In x l.
Proof.
  unfold sorted_by_start. split; intros H.
  - apply (Permutation_in _ (sorted_by_start_go_perm l [])) in H. now rewrite app_nil_r in H.
  - apply (Permutation_in _ (Permutation_sym (sorted_by_start_go_perm l []))).
    now rewrite app_nil_r.
Qed.

Lemma insert_by_start_sorted (x : Interval) (l : list Interval) :
  StronglySorted (fun a b => start a <= start b) l ->
  StronglySorted (fun a b => start a <= start b) (insert_by_start x l).
Proof.
  induction 1 as [|y l Hl IH Hf]; cbn.
  - repeat constructor.
  - destruct (Z.ltb_spec (start x) (start y)).
    + constructor; [constructor; assumption|].
      constructor; [lia|]. eapply Forall_impl; [exact Hf|]. cbn. intros. lia.
    + constructor; [exact IH|].
      apply List.Forall_forall. intros z Hz.
      apply (Permutation_in _ (insert_by_start_perm x l)) in Hz.
      destruct Hz as [<-|Hz]; [lia|]. rewrite List.Forall_forall in Hf. now apply Hf.
Qed.

Lemma sorted_by_start_sorted (l : list Interval) :
  StronglySorted (fun a b => start a <= start b) (sorted_by_start l).
Proof.
  unfold sorted_by_start.
  assert (H : forall acc, StronglySorted (fun a b => start a <= start b) acc ->
    StronglySorted (fun a b => start a <= start b)
      (fold_left (fun acc x => insert_by_start x acc) l acc)).
  { induction l as [|a l IH]; intros acc Hacc; cbn; [exact Hacc|].
    apply IH. now apply insert_by_start_sorted. }
  apply H. constructor.
Qed.

Lemma find_first_min (now : Z) (l : list Interval) (x y : Interval) :
  StronglySorted (fun a b => start a <= start b) l ->
  List.find (fun it => now <? start it) l = Some x ->
  In y l -> now < start y -> start x <= start y.
Proof.
  induction 1 as [|z l Hl IH Hf]; cbn; [discriminate|].
  intros Hx Hy Hny.
  destruct (Z.ltb_spec now (start z)).
  - injection Hx as <-. destruct Hy as [<-|Hy]; [lia|].
    rewrite List.Forall_forall in Hf. now apply Hf.
  - destruct Hy as [<-|Hy]; [lia|]. now apply IH.
Qed.

(** The next-outage start, characterised without the sort. *)
Lemma find_next_outage_spec (now : Z) (a b : list Interval) (s : Z) :
  _find_next_outage now a b = Some s <->
  (exists it, In it (a ++ b) /\ start it = s) /\ now < s /\
  (forall it, In it (a ++ b) -> now < start it -> s <= start it).
Proof.
  unfold _find_next_outage. cbv zeta.
  pose proof (sorted_by_start_sorted (a ++ b)) as Hs.
  split.
  - destruct (List.find _ _) as [x|] eqn:E; [|discriminate]. intros [= <-].
    destruct (find_some _ _ E) as [Hx Hlt]. apply Z.ltb_lt in Hlt.
    split; [exists x; split; [now apply sorted_by_start_In|reflexivity]|].
    split; [exact Hlt|].
    intros it Hit Hn. eapply find_first_min; [exact Hs|exact E| |exact Hn].
    now apply sorted_by_start_In.
  - intros ((it & Hit & <-) & Hn & Hmin).
    destruct (List.find _ _) as [x|] eqn:E.
    + destruct (find_some _ _ E) as [Hx Hlt]. apply Z.ltb_lt in Hlt.
      apply (proj1 (sorted_by_start_In _ _)) in Hx.
      assert (start x <= start it).
      { eapply find_first_min; [exact Hs|exact E| |exact Hn]. now apply sorted_by_start_In. }
      specialize (Hmin x Hx Hlt). f_equal. lia.
    + apply (proj2 (sorted_by_start_In _ _)) in Hit.
      pose proof (find_none _ _ E it Hit) as Hf. cbn in Hf. apply Z.ltb_ge in Hf. lia.
Qed.

Lemma find_next_outage_none (now : Z) (a b : list Interval) :
  _find_next_outage now a b = None <-> (forall it, In it (a ++ b) -> start it <= now).
Proof.
  split.
  - intros H it Hit. destruct (Z.le_gt_cases (start it) now) as [|Hlt]; [assumption|].
    exfalso. unfold _find_next_outage in H. cbv zeta in H.
    destruct (List.find _ _) eqn:E; [discriminate|].
    apply (proj2 (sorted_by_start_In _ _)) in Hit.
    pose proof (find_none _ _ E it Hit) as Hf. cbn in Hf. apply Z.ltb_ge in Hf. lia.
  - intros H. destruct (_find_next_outage now a b) as [s|] eqn:E; [|reflexivity].
    apply find_next_outage_spec in E. destruct E as ((it & Hit & <-) & Hn & _).
    specialize (H it Hit). lia.
Qed.

Lemma StronglySorted_In_pair {A} (R : A -> A -> Prop) (l : list A) (x y : A) :
  StronglySorted R l -> In x l -> In y l -> x = y \/ R x y \/ R y x.
Proof.
  induction 1 as [|z l Hl IH Hf]; [contradiction|].
  rewrite List.Forall_forall in Hf.
  intros [<-|Hx] [<-|Hy]; auto.
Qed.

(* ================================================================== *)
(** * Claims on the schedule evaluator *)

(** C3: [_find_next_outage] returns the start of the first interval, in the
    merged list of both days sorted by start, whose start is strictly after
    [now]: that is the least start after [now]; it is absent exactly when no
    interval starts after [now]; the start of an interval containing [now]
    is never returned. *)
Theorem C3_next_outage_first_future_start (now : Z) (today_off tomorrow_off : list Interval) :
  let all := today_off ++ tomorrow_off in
  Permutation (sorted_by_start all) all /\
  StronglySorted (fun a b => start a <= start b) (sorted_by_start all) /\
  _find_next_outage now today_off tomorrow_off
    = option_map start (List.find (fun it => now <? start it) (sorted_by_start all)) /\
  (forall s, _find_next_outage now today_off tomorrow_off = Some s <->
     (exists it, In it all /\ start it = s) /\ now < s /\
     (forall it, In it all -> now < start it -> s <= start it)) /\
  (_find_next_outage now today_off tomorrow_off = None <->
     (forall it, In it all -> start it <= now)) /\
  (forall it, In it all -> start it <= now < end_ it ->
     _find_next_outage now today_off tomorrow_off <> Some (start it)).
Proof.
  cbv zeta.
  refine (conj _ (conj (sorted_by_start_sorted _) (conj _ (conj _ (conj _ _))))).
  - unfold sorted_by_start. rewrite sorted_by_start_go_perm. now rewrite app_nil_r.
  - unfold _find_next_outage. cbv zeta. now destruct (List.find _ _).
  - intros s. apply find_next_outage_spec.
  - apply find_next_outage_none.
  - intros it _ Hin E. apply find_next_outage_spec in E. destruct E as (_ & Hn & _). lia.
Qed.

(** C10: when [now] lies in today's last outage, which runs to midnight, and
    tomorrow's "00:00" slot is off, the next outage reported is tomorrow's
    00:00: today's list closes the outage at midnight and tomorrow's list
    opens a new interval there, strictly after [now]. *)
Theorem C10_midnight_continuation_is_next (today tomorrow : date)
    (slots_today slots_tomorrow : SlotMap) (now s : Z) :
  date_day tomorrow = date_day today + 1 ->
  In (mkInterval s (_date_to_dt today + DAY)) (_slots_to_off_intervals today slots_today) ->
  s <= now < _date_to_dt today + DAY ->
  slot_status slots_tomorrow "00:00" = 2 ->
  _find_next_outage now (_slots_to_off_intervals today slots_today)
    (_slots_to_off_intervals tomorrow slots_tomorrow) = Some (_date_to_dt tomorrow).
Proof.
  intros Hday Hx Hnow H00.
  assert (Hmid : _date_to_dt tomorrow = _date_to_dt today + DAY)
    by (unfold _date_to_dt; rewrite Hday; lia).
  destruct (off_walk_result today slots_today) as (Ha & Hb & Hc & _).
  destruct (off_walk_result tomorrow slots_tomorrow) as (_ & _ & Hc' & _ & _ & Hg').
  unfold _slots_to_off_intervals in *.
  apply find_next_outage_spec. split; [|split].
  - assert (H0 : off_at slots_tomorrow (half_time (_date_to_dt tomorrow) 0) = true).
    { rewrite off_at_slot_key. destruct slot_key_values as (-> & _). now rewrite H00. }
    specialize (Hg' H0).
    destruct (intervals (off_walk tomorrow slots_tomorrow)) as [|h l] eqn:E; [contradiction|].
    exists h. split; [apply in_or_app; right; now left|exact Hg'].
  - lia.
  - intros it Hit Hlt. apply in_app_or in Hit as [Hit|Hit].
    + exfalso.
      rewrite List.Forall_forall in Ha, Hc.
      specialize (Ha it Hit). destruct (Hc it Hit).
      destruct (StronglySorted_In_pair _ _ _ _ Hb Hx Hit) as [<-|[Hr|Hr]];
        cbn [start end_] in *; lia.
    + rewrite List.Forall_forall in Hc'. destruct (Hc' it Hit). lia.
Qed.

Lemma C10_midnight_continuation_is_next_witness :
  _find_next_outage (_date_to_dt example_day + 23 * HOUR + 45 * MIN)
    (_slots_to_off_intervals example_day (<["23:30" := 2]> ∅))
    (_slots_to_off_intervals example_tomorrow (<["00:00" := 2]> ∅))
  = Some (_date_to_dt example_tomorrow).
Proof.
  apply (C10_midnight_continuation_is_next example_day example_tomorrow
           (<["23:30" := 2]> ∅) (<["00:00" := 2]> ∅)
           (_date_to_dt example_day + 23 * HOUR + 45 * MIN)
           (_date_to_dt example_day + 23 * HOUR + 30 * MIN)).
  - reflexivity.
  - vm_compute. left. reflexivity.
  - unfold _date_to_dt, DAY, HOUR, MIN, SEC. lia.
  - reflexivity.
Defined.

(** ** Rounding down to the half hour *)

Lemma round_down_to_half_hour_eq (t : Z) :
  _round_down_to_half_hour t = t - t mod HALF_HOUR.
Proof.
  unfold _round_down_to_half_hour, dt_replace_min, dt_minute, dt_second, dt_microsecond,
    HALF_HOUR, MIN, SEC.
  change (60 * 1000000) with 60000000. change (30 * 60000000) with 1800000000.
  pose proof (Z.div_mod t 60000000 ltac:(lia)). pose proof (Z.mod_pos_bound t 60000000 ltac:(lia)).
  pose proof (Z.div_mod t 1000000 ltac:(lia)). pose proof (Z.mod_pos_bound t 1000000 ltac:(lia)).
  pose proof (Z.div_mod t 1800000000 ltac:(lia)).
  pose proof (Z.mod_pos_bound t 1800000000 ltac:(lia)).
  pose proof (Z.div_mod (t / 60000000) 60 ltac:(lia)).
  pose proof (Z.mod_pos_bound (t / 60000000) 60 ltac:(lia)).
  pose proof (Z.div_mod (t / 1000000) 60 ltac:(lia)).
  pose proof (Z.mod_pos_bound (t / 1000000) 60 ltac:(lia)).
  destruct (Z.ltb_spec (t / 60000000 mod 60) 30); lia.
Qed.

Lemma half_boundary_key (day r : Z) :
  r mod HALF_HOUR = 0 -> day * DAY <= r < day * DAY + DAY ->
  _time_str_from_dt r = slot_key (Z.to_nat ((r - day * DAY) / HALF_HOUR)) /\
  (0 <= (r - day * DAY) / HALF_HOUR < 48).
Proof.
  intros Hm Hr.
  assert (Hk : r - day * DAY = HALF_HOUR * ((r - day * DAY) / HALF_HOUR)).
  { pose proof (Z.div_mod (r - day * DAY) HALF_HOUR ltac:(unfold HALF_HOUR, MIN, SEC; lia)).
    pose proof (Z.div_mod r HALF_HOUR ltac:(unfold HALF_HOUR, MIN, SEC; lia)).
    pose proof (Z.mod_pos_bound (r - day * DAY) HALF_HOUR ltac:(unfold HALF_HOUR, MIN, SEC; lia)).
    unfold DAY, HOUR in *. unfold HALF_HOUR, MIN, SEC in *. lia. }
  split.
  - unfold slot_key, half_time. rewrite Z2Nat.id.
    + replace (0 + (r - day * DAY) / HALF_HOUR * HALF_HOUR) with (r - day * DAY) by lia.
      rewrite <- (time_str_shift day (r - day * DAY)). f_equal. lia.
    + apply Z.div_pos; [lia|unfold HALF_HOUR, MIN, SEC; lia].
  - unfold DAY, HOUR in *. unfold HALF_HOUR, MIN, SEC in *. lia.
Qed.

(** C4: the current-power check rounds [now] down to the enclosing
    half-hour boundary [r]; when [r] lies in the given day it answers
    power-on exactly when the status of [r]'s key (1 when absent) is 1, and
    outside the day it answers power-on.  At 10:15 with "10:00"=2 it answers
    no power. *)
Theorem C4_now_has_power_by_rounded_slot (now : Z) (d : date) (slots : SlotMap) :
  let r := _round_down_to_half_hour now in
  let ds := _date_to_dt d in
  r = now - now mod HALF_HOUR /\ r mod HALF_HOUR = 0 /\ r <= now < r + HALF_HOUR /\
  _is_now_has_power now d slots =
    (if (ds <=? r) && (r <? ds + DAY)
     then Z.eqb (slot_status slots (slot_key (Z.to_nat ((r - ds) / HALF_HOUR)))) 1
     else true) /\
  (slot_status slots "10:00" = 2 ->
   _is_now_has_power (ds + 10 * HOUR + 15 * MIN) d slots = false).
Proof.
  cbv zeta.
  assert (Hround : forall t, _round_down_to_half_hour t mod HALF_HOUR = 0 /\
            _round_down_to_half_hour t <= t < _round_down_to_half_hour t + HALF_HOUR).
  { intros t. rewrite round_down_to_half_hour_eq.
    pose proof (Z.div_mod t HALF_HOUR ltac:(unfold HALF_HOUR, MIN, SEC; lia)).
    pose proof (Z.mod_pos_bound t HALF_HOUR ltac:(unfold HALF_HOUR, MIN, SEC; lia)).
    split; [|lia].
    replace (t - t mod HALF_HOUR) with ((t / HALF_HOUR) * HALF_HOUR) by lia.
    apply Z_mod_mult. }
  assert (Heq : forall t, _is_now_has_power t d slots =
    (if (_date_to_dt d <=? _round_down_to_half_hour t) &&
        (_round_down_to_half_hour t <? _date_to_dt d + DAY)
     then Z.eqb (slot_status slots (slot_key (Z.to_nat
            ((_round_down_to_half_hour t - _date_to_dt d) / HALF_HOUR)))) 1
     else true)).
  { intros t. unfold _is_now_has_power. cbv zeta.
    destruct (Z.leb_spec (_date_to_dt d) (_round_down_to_half_hour t));
      destruct (Z.ltb_spec (_round_down_to_half_hour t) (_date_to_dt d + DAY));
      cbn [andb negb]; try reflexivity.
    destruct (Hround t) as [Hm _]. unfold _date_to_dt in *.
    destruct (half_boundary_key (date_day d) (_round_down_to_half_hour t) Hm ltac:(lia))
      as [-> _].
    reflexivity. }
  refine (conj (round_down_to_half_hour_eq now) (conj (proj1 (Hround now))
            (conj (proj2 (Hround now)) (conj (Heq now) _)))).
  intros H10. rewrite Heq.
  assert (Hr : _round_down_to_half_hour (_date_to_dt d + 10 * HOUR + 15 * MIN)
               = _date_to_dt d + 10 * HOUR).
  { rewrite round_down_to_half_hour_eq. unfold _date_to_dt.
    replace (date_day d * DAY + 10 * HOUR + 15 * MIN)
      with (15 * MIN + (date_day d * 48 + 20) * HALF_HOUR)
      by (unfold DAY, HOUR, HALF_HOUR; lia).
    rewrite Z.mod_add by (unfold HALF_HOUR, MIN, SEC; lia).
    rewrite Z.mod_small by (unfold HALF_HOUR, MIN, SEC; lia).
    unfold DAY, HOUR, HALF_HOUR. lia. }
  rewrite Hr.
  replace ((_date_to_dt d + 10 * HOUR - _date_to_dt d) / HALF_HOUR) with 20
    by (replace (_date_to_dt d + 10 * HOUR - _date_to_dt d) with (20 * HALF_HOUR)
          by (unfold HOUR, HALF_HOUR; lia);
        rewrite Z.div_mul by (unfold HALF_HOUR, MIN, SEC; lia); reflexivity).
  destruct slot_key_values as (_ & _ & K20 & _).
  replace (Z.to_nat 20) with 20%nat by reflexivity. rewrite K20, H10.
  replace (_date_to_dt d <=? _date_to_dt d + 10 * HOUR) with true
    by (symmetry; apply Z.leb_le; unfold HOUR, MIN, SEC; lia).
  replace (_date_to_dt d + 10 * HOUR <? _date_to_dt d + DAY) with true
    by (symmetry; apply Z.ltb_lt; unfold DAY, HOUR, MIN, SEC; lia).
  reflexivity.
Qed.

(** The [+ 59] rounding is the ceiling when the duration is whole seconds. *)
Lemma minutes_until_whole_seconds (now s : Z) :
  (s - now) mod SEC = 0 ->
  Z.max ((s - now + 59 * SEC) / MIN) 0 = spec_minutes_until now s.
Proof.
  intros Hm. unfold spec_minutes_until, MIN, SEC in *.
  pose proof (Z.div_mod (s - now) 1000000 ltac:(lia)).
  pose proof (Z.div_mod (s - now + 59 * 1000000) (60 * 1000000) ltac:(lia)).
  pose proof (Z.mod_pos_bound (s - now + 59 * 1000000) (60 * 1000000) ltac:(lia)).
  pose proof (Z.div_mod (now - s) (60 * 1000000) ltac:(lia)).
  pose proof (Z.mod_pos_bound (now - s) (60 * 1000000) ltac:(lia)).
  lia.
Qed.

(* ================================================================== *)
(** * Minutes until the next outage *)

(** C8: at 09:59:59.5, half a second before an outage starting at 10:00,
    [get_schedule] reports 0 minutes until it, while the duration rounded up
    to whole minutes is 1: the [+ 59] on [total_seconds()] rounds up only
    whole seconds (see [minutes_until_whole_seconds]). *)
Theorem C8_minutes_until_misses_ceiling_below_a_second :
  let now := _date_to_dt example_day + 10 * HOUR - 500000 in
  let today_off := _slots_to_off_intervals example_day (<["10:00" := 2]> ∅) in
  let tomorrow_off := _slots_to_off_intervals example_tomorrow ∅ in
  _find_next_outage now today_off tomorrow_off = Some (_date_to_dt example_day + 10 * HOUR) /\
  next_outage_in_minutes now (_find_next_outage now today_off tomorrow_off) = Some 0 /\
  spec_minutes_until now (_date_to_dt example_day + 10 * HOUR) = 1.
Proof. vm_compute. repeat split. Qed.

(* ================================================================== *)
(** * Claim on the raw-payload cache *)

(** C7: a live cache entry is returned with no upstream request and the
    cache untouched; when the upstream request fails, the call fails with
    [FeedUnavailable] (unless a live entry answered it) and the cache is
    exactly what it was; so after a successful fetch, a failing upstream
    within the time-to-live still gets the cached payload. *)
Theorem C7_cache_hit_and_failed_fetch (cache_ttl_seconds : Z)
    (upstream : outcome json fetch_failure) (region_cpu : string) (now : Z) (w : world) :
  (forall expires payload,
     raw_cache w !! region_cpu = Some (expires, payload) -> now < expires ->
     _fetch_raw cache_ttl_seconds upstream region_cpu now w = (Ok payload, w)) /\
  (forall e, upstream = Err e ->
     raw_cache (snd (_fetch_raw cache_ttl_seconds upstream region_cpu now w)) = raw_cache w /\
     (fst (_fetch_raw cache_ttl_seconds upstream region_cpu now w) = Err (FeedUnavailable e) \/
      exists expires payload, raw_cache w !! region_cpu = Some (expires, payload) /\
        now < expires /\
        _fetch_raw cache_ttl_seconds upstream region_cpu now w = (Ok payload, w))) /\
  (forall data e later,
     (forall expires payload, raw_cache w !! region_cpu = Some (expires, payload) ->
        expires <= now) ->
     now <= later < now + cache_ttl_seconds * SEC ->
     fst (_fetch_raw cache_ttl_seconds (Err e) region_cpu later
            (snd (_fetch_raw cache_ttl_seconds (Ok data) region_cpu now w))) = Ok data).
Proof.
  split; [|split].
  - intros expires payload Hc Hlt. unfold _fetch_raw. rewrite Hc.
    apply Z.ltb_lt in Hlt. now rewrite Hlt.
  - intros e ->. unfold _fetch_raw.
    destruct (raw_cache w !! region_cpu) as [[expires payload]|] eqn:Hc.
    + destruct (Z.ltb_spec now expires).
      * split; [reflexivity|]. right. exists expires, payload.
        split; [reflexivity|]. split; [assumption|reflexivity].
      * split; [reflexivity|]. now left.
    + split; [reflexivity|]. now left.
  - intros data e later Hstale Hlater.
    assert (Hfirst : snd (_fetch_raw cache_ttl_seconds (Ok data) region_cpu now w)
      = mkWorld (<[region_cpu := (now + cache_ttl_seconds * SEC, data)]> (raw_cache w))
                (S (upstream_requests w))).
    { unfold _fetch_raw.
      destruct (raw_cache w !! region_cpu) as [[expires payload]|] eqn:Hc; [|reflexivity].
      specialize (Hstale expires payload eq_refl).
      replace (now <? expires) with false by (symmetry; apply Z.ltb_ge; lia). reflexivity. }
    rewrite Hfirst. unfold _fetch_raw. cbn [raw_cache].
    rewrite lookup_insert_eq.
    replace (later <? now + cache_ttl_seconds * SEC) with true
      by (symmetry; apply Z.ltb_lt; lia).
    reflexivity.
Qed.

Lemma dict_get_notin (kvs : list (string * json)) (k : string) :
  ~ In k (map fst kvs) -> dict_get kvs k = None.
Proof.
  induction kvs as [|[k' v] rest IH]; cbn; intros Hn; [reflexivity|].
  destruct (String.eqb k' k) eqn:E.
  - apply String.eqb_eq in E. subst. exfalso. apply Hn. left. reflexivity.
  - apply IH. intros Hin. apply Hn. right. exact Hin.
Qed.

Lemma find_region_spec (rs : list json) (region_cpu : string) :
  Forall (fun r => exists rk, r = JObj rk) rs ->
  match find_region rs region_cpu with
  | Ok rb => In rb rs /\ region_matches region_cpu rb
  | Err e => e = RegionNotFound region_cpu /\
             ~ exists r, In r rs /\ region_matches region_cpu r
  end.
Proof.
  induction rs as [|r rs IH]; intros Hf; cbn.
  - split; [reflexivity|]. intros [r [[] _]].
  - inversion Hf as [|? ? [rk ->] Hrs]; subst. cbn.
    destruct (json_eq_str (default JNull (dict_get rk "cpu")) region_cpu) eqn:E.
    + split; [left; reflexivity|]. exists rk. split; [reflexivity|].
      destruct (dict_get rk "cpu") as [[]|]; cbn in E; try discriminate.
      apply String.eqb_eq in E. subst. reflexivity.
    + specialize (IH Hrs). destruct (find_region rs region_cpu) as [rb|e].
      * destruct IH as [Hin Hm]. split; [right; exact Hin | exact Hm].
      * destruct IH as [He Hn]. split; [exact He|].
        intros [r' [[<-|Hin] Hm]].
        -- destruct Hm as [rk' [Hq Hc]]. injection Hq as <-.
           rewrite Hc in E. cbn in E. rewrite String.eqb_refl in E. discriminate.
        -- apply Hn. exists r'. split; assumption.
Qed.

Lemma extract_region_block_spec (payload : json) (region_cpu : string) :
  payload_wf payload ->
  match _extract_region_block payload region_cpu with
  | Ok rb => In rb (regions_of payload) /\ region_matches region_cpu rb
  | Err e => e = RegionNotFound region_cpu /\
             ~ exists r, In r (regions_of payload) /\ region_matches region_cpu r
  end.
Proof.
  intros [kvs [-> Hr]]. unfold _extract_region_block, regions_of. cbn [py_get bind_out].
  destruct (dict_get kvs "regions") as [v|]; cbn.
  - destruct v; try contradiction. cbn. apply find_region_spec. exact Hr.
  - apply (find_region_spec [] region_cpu). constructor.
Qed.

Lemma normalize_slots_go (items : list (string * json)) (m0 : SlotMap) (k : string) :
  NoDup (map fst items) ->
  fold_left (fun normalized kv =>
               match py_int (snd kv) with
               | Some z => <[fst kv := z]> normalized
               | None => normalized
               end) items m0 !! k =
  match dict_get items k with
  | Some v => match py_int v with Some z => Some z | None => m0 !! k end
  | None => m0 !! k
  end.
Proof.
  revert m0. induction items as [|[k' v] rest IH]; intros m0 Hnd; cbn; [reflexivity|].
  inversion Hnd as [|? ? Hnin Hnd']; subst. rewrite IH by exact Hnd'.
  destruct (String.eqb k' k) eqn:E.
  - apply String.eqb_eq in E. subst. rewrite (dict_get_notin rest k (fun Hin => Hnin (proj2 (list_elem_of_In _ _) Hin))).
    destruct (py_int v); [rewrite lookup_insert_eq|]; reflexivity.
  - apply String.eqb_neq in E.
    destruct (py_int v); [rewrite lookup_insert_ne by exact E|]; reflexivity.
Qed.

Lemma normalize_slots_lookup (items : list (string * json)) (k : string) :
  NoDup (map fst items) ->
  normalize_slots items !! k =
  match dict_get items k with Some v => py_int v | None => None end.
Proof.
  intros Hnd. unfold normalize_slots. rewrite normalize_slots_go by exact Hnd.
  rewrite lookup_empty. destruct (dict_get items k) as [v|]; [destruct (py_int v)|]; reflexivity.
Qed.

Lemma or_empty_default (o : option json) :
  obj_or_falsy o -> or_empty (default (JObj []) o) = JObj (obj_items o).
Proof.
  destruct o as [v|]; cbn; [|reflexivity].
  intros [Hf | [kvs ->]].
  - unfold or_empty. rewrite Hf.
    destruct v; try reflexivity. destruct kvs; [reflexivity | discriminate Hf].
  - unfold or_empty. destruct kvs as [|kv kvs]; reflexivity.
Qed.

Lemma day_items_levels (rb : json) (group_name date_str : string) :
  obj_items (dict_get (obj_items (dict_get (obj_items (sub_dict rb "schedule")) group_name)) date_str)
  = default [] (day_items rb group_name date_str).
Proof.
  unfold day_items.
  destruct (sub_dict rb "schedule") as [[| | | | | | | sk]|]; try reflexivity.
  cbn [obj_items].
  destruct (dict_get sk group_name) as [[| | | | | | | gk]|]; try reflexivity.
  cbn [obj_items].
  destruct (dict_get gk date_str) as [[]|]; reflexivity.
Qed.

Lemma extract_slots_spec (rk : list (string * json)) (group_name date_str : string) :
  schedule_wf (JObj rk) group_name date_str ->
  _extract_slots (JObj rk) group_name date_str =
  Ok (normalize_slots (default [] (day_items (JObj rk) group_name date_str))).
Proof.
  intros [H1 [H2 [H3 _]]]. rewrite <- day_items_levels.
  unfold _extract_slots. cbn [py_get bind_out].
  cbn [sub_dict] in H1 |- *. rewrite (or_empty_default _ H1). cbn [py_get bind_out].
  assert (H2' : obj_or_falsy (dict_get (obj_items (dict_get rk "schedule")) group_name)).
  { destruct (dict_get rk "schedule") as [[]|] eqn:E; cbn; try exact I.
    exact (H2 _ E). }
  rewrite (or_empty_default _ H2'). cbn [py_get bind_out].
  assert (H3' : obj_or_falsy (dict_get (obj_items (dict_get (obj_items (dict_get rk "schedule")) group_name)) date_str)).
  { destruct (dict_get rk "schedule") as [[| | | | | | | kvs]|] eqn:E; cbn; try exact I.
    destruct (dict_get kvs group_name) as [[| | | | | | | gk]|] eqn:E'; cbn; try exact I.
    exact (H3 _ _ E E'). }
  rewrite (or_empty_default _ H3'). reflexivity.
Qed.

(** ** C6 (counterexample): non-integer slot values are not all dropped and
    a payload with a matching region can still raise.  A float [2.5] is
    kept as [int(2.5) = 2], a string ["2"] as [2] and a string of a
    no-break space and an Arabic-Indic three as [3]; a non-dict element
    before the matching block makes [r.get] raise [AttributeError]; a
    matching block whose [schedule] is a non-empty list raises too. *)
Lemma C6_counterexample :
  _extract_slots example_cx_slots_block "2.1" "2026-02-11"
    = Ok (<["11:00" := 3]> (<["10:30" := 2]> (<["10:00" := 2]> ∅))) /\
  _extract_region_block
    (JObj [("regions", JArr [JInt 5; JObj [("cpu", JStr "dnipropetrovska-oblast")]])])
    "dnipropetrovska-oblast" = Err AttributeError /\
  _extract_region_block
    (JObj [("regions", JArr [JObj [("cpu", JStr "dnipropetrovska-oblast");
                                   ("schedule", JArr [JInt 1])]])])
    "dnipropetrovska-oblast"
    = Ok (JObj [("cpu", JStr "dnipropetrovska-oblast"); ("schedule", JArr [JInt 1])]) /\
  _extract_slots (JObj [("cpu", JStr "dnipropetrovska-oblast"); ("schedule", JArr [JInt 1])])
    "2.1" "2026-02-11" = Err AttributeError.
Proof. vm_compute. repeat split. Qed.

(** ** C6 (amended): on a structurally well-formed payload (a dict whose
    [regions] is absent or a list of dicts) region lookup fails only with
    [RegionNotFound], and exactly when no block's [cpu] equals the region.
    For the block found, when the schedule, group and date entries are each
    absent, falsy or a dict, slot extraction does not raise; a missing group
    or date gives the empty map; and each key holds [int(v)] of its value
    when [int] accepts it (floats truncated, numeric strings parsed) and is
    absent otherwise. *)
Theorem C6_extraction_fails_only_on_missing_region
    (payload : json) (region_cpu group_name date_str : string)
    (Hwf : payload_wf payload) :
  (forall e, _extract_region_block payload region_cpu = Err e -> e = RegionNotFound region_cpu) /\
  ((exists e, _extract_region_block payload region_cpu = Err e) <->
   ~ exists r, In r (regions_of payload) /\ region_matches region_cpu r) /\
  (forall rb, _extract_region_block payload region_cpu = Ok rb ->
     In rb (regions_of payload) /\ region_matches region_cpu rb /\
     (schedule_wf rb group_name date_str ->
      exists m, _extract_slots rb group_name date_str = Ok m /\
        (day_items rb group_name date_str = None -> m = ∅) /\
        forall k, m !! k =
          match day_items rb group_name date_str with
          | Some items => match dict_get items k with Some v => py_int v | None => None end
          | None => None
          end)).
Proof.
  pose proof (extract_region_block_spec payload region_cpu Hwf) as Hs.
  destruct (_extract_region_block payload region_cpu) as [rb|e] eqn:E.
  - refine (conj _ (conj _ _)).
    + intros e He. discriminate He.
    + split.
      * intros [e He]. discriminate He.
      * intros Hn. exfalso. apply Hn. exists rb. exact Hs.
    + intros rb' Hq. injection Hq as <-. destruct Hs as [Hin Hm].
      refine (conj Hin (conj Hm _)). intros Hwf'.
      destruct Hm as [rk [-> _]].
      exists (normalize_slots (default [] (day_items (JObj rk) group_name date_str))).
      refine (conj (extract_slots_spec rk group_name date_str Hwf') (conj _ _)).
      * intros Hd. rewrite Hd. reflexivity.
      * intros k. destruct (day_items (JObj rk) group_name date_str) as [items|] eqn:Ed.
        -- apply normalize_slots_lookup. destruct Hwf' as [_ [_ [_ Hnd]]]. exact (Hnd items Ed).
        -- apply lookup_empty.
  - destruct Hs as [He Hn]. refine (conj _ (conj _ _)).
    + intros e' Hq. injection Hq as <-. exact He.
    + split; [intros _; exact Hn | intros _; exists e; reflexivity].
    + intros rb Hq. discriminate Hq.
Qed.

Lemma C6_extraction_fails_only_on_missing_region_witness :
  payload_wf example_payload /\
  (forall e, _extract_region_block example_payload "dnipropetrovska-oblast" = Err e ->
             e = RegionNotFound "dnipropetrovska-oblast").
Proof.
  assert (Hwf : payload_wf example_payload).
  { exists (match example_payload with JObj kvs => kvs | _ => [] end). split; [reflexivity|].
    cbn. repeat constructor; eexists; reflexivity. }
  split; [exact Hwf|].
  exact (proj1 (C6_extraction_fails_only_on_missing_region
                  example_payload "dnipropetrovska-oblast" "2.1" "2026-02-11" Hwf)).
Defined.

Lemma time_str_half_time (d : date) (j : nat) :
  _time_str_from_dt (half_time (_date_to_dt d) j) = slot_key j.
Proof.
  unfold _date_to_dt, slot_key.
  replace (half_time (date_day d * DAY) j) with (date_day d * DAY + half_time 0 j)
    by (unfold half_time; lia).
  apply time_str_shift.
Qed.

(** The hashed text, hence the fingerprint, depends only on the effective
    status of the 48 keys of each day. *)
Lemma slots_normalized_for_hash_effective (d : date) (s1 s2 : SlotMap) :
  (forall j, (j < 48)%nat -> slot_status s1 (slot_key j) = slot_status s2 (slot_key j)) ->
  _slots_normalized_for_hash d s1 = _slots_normalized_for_hash d s2.
Proof.
  intros H. unfold _slots_normalized_for_hash. rewrite iter_half_hours_eq, !map_map.
  f_equal. apply map_ext_in. intros j Hj. apply in_seq in Hj.
  rewrite time_str_half_time, H by lia. reflexivity.
Qed.

(** X1: the fingerprint depends only on the effective status (the stored
    value, or 1 when the key is absent) of the 48 keys of each day. *)
Theorem hash_schedule_effective (sha256_hex : string -> string) (dt dm : date)
    (st st' sm sm' : SlotMap) :
  (forall j, (j < 48)%nat -> slot_status st (slot_key j) = slot_status st' (slot_key j)) ->
  (forall j, (j < 48)%nat -> slot_status sm (slot_key j) = slot_status sm' (slot_key j)) ->
  _hash_schedule sha256_hex dt st dm sm = _hash_schedule sha256_hex dt st' dm sm'.
Proof.
  intros Ht Hm. unfold _hash_schedule.
  rewrite (slots_normalized_for_hash_effective dt st st' Ht),
          (slots_normalized_for_hash_effective dm sm sm' Hm).
  reflexivity.
Qed.

Lemma hash_schedule_effective_witness :
  (forall j, (j < 48)%nat -> slot_status ∅ (slot_key j) = slot_status (<["10:00" := 1]> ∅) (slot_key j)) /\
  _hash_schedule (fun s => s) example_day ∅ example_tomorrow ∅
  = _hash_schedule (fun s => s) example_day (<["10:00" := 1]> ∅) example_tomorrow ∅.
Proof.
  assert (H : forall j, (j < 48)%nat ->
            slot_status ∅ (slot_key j) = slot_status (<["10:00" := 1]> ∅) (slot_key j)).
  { intros j _. unfold slot_status.
    destruct (decide (slot_key j = "10:00")) as [->|Hn].
    - reflexivity.
    - rewrite lookup_insert_ne by congruence. reflexivity. }
  split; [exact H|].
  apply (hash_schedule_effective (fun s => s) example_day example_tomorrow
           ∅ (<["10:00" := 1]> ∅) ∅ ∅ H).
  intros j _. reflexivity.
Defined.

(* ------------------------------------------------------------------ *)
(** ** Coverage of the derived intervals *)

Lemma covered_snoc (ivs : list Interval) (x : Interval) (t : Z) :
  covered (ivs ++ [x]) t <-> covered ivs t \/ (start x <= t < end_ x).
Proof.
  unfold covered. split.
  - intros [it [Hin Ht]]. apply in_app_or in Hin as [Hin|[<-|[]]].
    + left. exists it. split; assumption.
    + right. exact Ht.
  - intros [[it [Hin Ht]]|Ht].
    + exists it. split; [apply in_or_app; left; exact Hin|exact Ht].
    + exists x. split; [apply in_or_app; right; left; reflexivity|exact Ht].
Qed.

Lemma not_covered_before (ivs : list Interval) (t : Z) :
  Forall (fun it => end_ it <= t) ivs -> ~ covered ivs t.
Proof.
  intros Hf [it [Hin Ht]]. rewrite List.Forall_forall in Hf. specialize (Hf it Hin). lia.
Qed.

Lemma off_step_idle (slots : SlotMap) (ds : Z) (n i : nat) (t : Z) (st : off_state) :
  in_off st = false -> off_at slots t = false -> Nat.eqb i (n - 1) = false ->
  off_step slots ds n st (i, t) = st.
Proof.
  intros Hin Ho Hi. unfold off_at in Ho. unfold off_step. cbv beta iota zeta.
  rewrite Ho. destruct st as [io os acc]. cbn [in_off] in Hin. subst io.
  cbn [andb negb in_off]. rewrite Hi. reflexivity.
Qed.

Lemma cov_inv_0 (slots : SlotMap) (ds : Z) : cov_inv slots ds 0 init_off_state.
Proof. split; [constructor|]. intros k Hk. lia. Qed.

Lemma ends_before (ds : Z) (j : nat) (ivs : list Interval) :
  Forall (fun it => ds <= start it /\ end_ it < half_time ds j) ivs ->
  Forall (fun it => end_ it <= half_time ds j) ivs.
Proof. intros Hc. eapply Forall_impl; [exact Hc|]. intros it [? ?]. lia. Qed.

Lemma cov_inv_step (slots : SlotMap) (ds : Z) (j : nat) (st : off_state) :
  (j < 47)%nat -> walk_inv slots ds j st -> cov_inv slots ds j st ->
  cov_inv slots ds (S j) (off_step slots ds 48 st (j, half_time ds j)).
Proof.
  intros Hj (Ha & Hb & Hc & Hd & He & Hf & Hg) [Hgrid Hcov].
  assert (Hn : Nat.eqb j (48 - 1) = false) by (apply Nat.eqb_neq; lia).
  pose proof (ends_before ds j _ Hc) as Hends.
  destruct st as [io os acc]; cbn [in_off off_start intervals] in *.
  destruct (off_at slots (half_time ds j)) eqn:Eo; destruct io.
  - (* off, already in an outage *)
    rewrite (off_step_stay slots ds 48 j _ (mkOffState true os acc) eq_refl Eo Hn).
    destruct (He eq_refl) as (k0 & Hk0 & Hos & _).
    split; [exact Hgrid|]. intros k Hk. cbn [in_off off_start intervals].
    destruct (Nat.eq_dec k j) as [->|Hkj].
    + rewrite Eo. split; [intros _|intros _; reflexivity]. right. split; [reflexivity|].
      exists (half_time ds k0). split; [exact Hos|]. apply Z.lt_le_incl, half_time_lt. exact Hk0.
    + apply Hcov. lia.
  - (* off, an outage opens here *)
    rewrite (off_step_open slots ds 48 j _ (mkOffState false os acc) eq_refl Eo Hn).
    split; [exact Hgrid|]. cbn [in_off off_start intervals]. intros k Hk.
    destruct (Nat.eq_dec k j) as [->|Hkj].
    + rewrite Eo. split; [intros _|intros _; reflexivity]. right. split; [reflexivity|].
      exists (half_time ds j). split; [reflexivity|lia].
    + rewrite (Hcov k ltac:(lia)).
      pose proof (half_time_lt ds k j ltac:(lia)) as Hlt.
      split; intros [H|[H1 H2]]; try (left; exact H); try discriminate H1.
      destruct H2 as [s [Hs Hle]]. injection Hs as <-. lia.
  - (* on, the open outage closes here *)
    destruct (He eq_refl) as (k0 & Hk0 & Hos & _).
    rewrite (off_step_close slots ds 48 j _ _ (mkOffState true os acc) eq_refl Hos Eo Hn).
    unfold cov_inv. cbn [in_off off_start intervals]. split.
    + apply Forall_app. split; [exact Hgrid|]. constructor; [|constructor].
      exists k0, j. split; reflexivity.
    + intros k Hk. rewrite covered_snoc. cbn [start end_].
      destruct (Nat.eq_dec k j) as [->|Hkj].
      * rewrite Eo. split; [discriminate|].
        intros [[H|H]|[H _]]; [destruct (not_covered_before _ _ Hends H)|lia|discriminate].
      * rewrite (Hcov k ltac:(lia)). cbn [off_start] in Hos. rewrite Hos.
        pose proof (half_time_lt ds k j ltac:(lia)) as Hlt.
        split.
        -- intros [H|[_ [s [Hs Hle]]]]; [left; left; exact H|].
           injection Hs as <-. left. right. lia.
        -- intros [[H|H]|[H _]]; [left; exact H| |discriminate].
           right. split; [reflexivity|]. exists (half_time ds k0). split; [reflexivity|lia].
  - (* on, no outage *)
    rewrite (off_step_idle slots ds 48 j _ (mkOffState false os acc) eq_refl Eo Hn).
    split; [exact Hgrid|]. intros k Hk. cbn [in_off off_start intervals].
    destruct (Nat.eq_dec k j) as [->|Hkj].
    + rewrite Eo. split; [discriminate|].
      intros [H|[H _]]; [destruct (not_covered_before _ _ Hends H)|discriminate].
    + apply Hcov. lia.
Qed.

Lemma cov_inv_prefix (slots : SlotMap) (ds : Z) (j : nat) :
  (j <= 47)%nat -> cov_inv slots ds j (walk_prefix slots ds j).
Proof.
  induction j as [|j IH]; intros Hj.
  - apply cov_inv_0.
  - rewrite walk_prefix_S. apply cov_inv_step; [lia| |].
    + apply walk_inv_prefix. lia.
    + apply IH. lia.
Qed.

Lemma cov_close_iff (acc : list Interval) (s t e : Z) :
  t < e ->
  (covered acc t \/ (true = true /\ exists s', Some s = Some s' /\ s' <= t)) <->
  covered (acc ++ [mkInterval s e]) t.
Proof.
  intros Hte. rewrite covered_snoc. cbn [start end_]. split.
  - intros [H|[_ [s' [Hs Hle]]]]; [left; exact H|]. injection Hs as <-. right. lia.
  - intros [H|H]; [left; exact H|]. right. split; [reflexivity|]. exists s. split; [reflexivity|lia].
Qed.

Lemma cov_open_iff (acc : list Interval) (os : option Z) (t : Z) :
  covered acc t \/ (false = true /\ exists s, os = Some s /\ s <= t) <-> covered acc t.
Proof. split; [intros [H|[H _]]; [exact H|discriminate] | intros H; left; exact H]. Qed.

Lemma cov_full (slots : SlotMap) (ds : Z) :
  Forall (on_grid ds) (intervals (walk_prefix slots ds 48)) /\
  forall k, (k < 48)%nat ->
    (off_at slots (half_time ds k) = true <->
     covered (intervals (walk_prefix slots ds 48)) (half_time ds k)).
Proof.
  rewrite walk_prefix_S.
  pose proof (walk_inv_prefix slots ds 47 ltac:(lia)) as Hw.
  pose proof (cov_inv_prefix slots ds 47 ltac:(lia)) as Hcv.
  revert Hw Hcv. generalize (walk_prefix slots ds 47).
  intros [io os acc] (Ha & Hb & Hc & Hd & He & Hf & Hg) [Hgrid Hcov].
  cbn [in_off off_start intervals] in *.
  pose proof (ends_before ds 47 _ Hc) as Hends.
  assert (Hday : ds + DAY = half_time ds 48) by apply day_end_half_time.
  assert (Hlt48 : forall k, (k < 48)%nat -> half_time ds k < ds + DAY)
    by (intros k Hk; rewrite Hday; apply half_time_lt; exact Hk).
  unfold off_step. cbv beta iota zeta.
  change (Z.eqb (slot_status slots (_time_str_from_dt (half_time ds 47))) 2)
    with (off_at slots (half_time ds 47)).
  replace (Nat.eqb 47 (48 - 1)) with true by reflexivity.
  destruct (off_at slots (half_time ds 47)) eqn:Eo; destruct io.
  - (* still off at 23:30 *)
    destruct (He eq_refl) as (k0 & Hk0 & Hos & _). subst os.
    cbn [andb negb in_off off_start intervals]. split.
    + apply Forall_app. split; [exact Hgrid|]. constructor; [|constructor].
      exists k0, 48%nat. split; [reflexivity|exact Hday].
    + intros k Hk. destruct (Nat.eq_dec k 47%nat) as [->|Hkj].
      * rewrite Eo. split; [intros _|intros _; reflexivity].
        apply covered_snoc. right. cbn [start end_].
        split; [apply Z.lt_le_incl, half_time_lt; exact Hk0|apply Hlt48; lia].
      * rewrite (Hcov k ltac:(lia)). apply cov_close_iff. apply Hlt48. exact Hk.
  - (* opens at 23:30 *)
    rewrite (Hf eq_refl). cbn [andb negb in_off off_start intervals]. split.
    + apply Forall_app. split; [exact Hgrid|]. constructor; [|constructor].
      exists 47%nat, 48%nat. split; [reflexivity|exact Hday].
    + intros k Hk. rewrite covered_snoc. cbn [start end_].
      destruct (Nat.eq_dec k 47%nat) as [->|Hkj].
      * rewrite Eo. split; [intros _|intros _; reflexivity]. right. split; [lia|apply Hlt48; lia].
      * rewrite (Hcov k ltac:(lia)), cov_open_iff.
        pose proof (half_time_lt ds k 47%nat ltac:(lia)) as Hlt.
        split; [intros H; left; exact H|intros [H|H]; [exact H|lia]].
  - (* closes at 23:30 *)
    destruct (He eq_refl) as (k0 & Hk0 & Hos & _). subst os.
    cbn [andb negb in_off off_start intervals]. split.
    + apply Forall_app. split; [exact Hgrid|]. constructor; [|constructor].
      exists k0, 47%nat. split; reflexivity.
    + intros k Hk. destruct (Nat.eq_dec k 47%nat) as [->|Hkj].
      * rewrite Eo, covered_snoc. cbn [start end_]. split; [discriminate|].
        intros [H|H]; [destruct (not_covered_before _ _ Hends H)|lia].
      * rewrite (Hcov k ltac:(lia)). apply cov_close_iff. apply half_time_lt. lia.
  - (* no outage at 23:30 *)
    cbn [andb negb in_off off_start intervals]. split; [exact Hgrid|].
    intros k Hk. destruct (Nat.eq_dec k 47%nat) as [->|Hkj].
    + rewrite Eo. split; [discriminate|]. intros H. destruct (not_covered_before _ _ Hends H).
    + rewrite (Hcov k ltac:(lia)). apply cov_open_iff.
Qed.

Lemma round_down_half_time (day t : Z) :
  day * DAY <= t ->
  _round_down_to_half_hour t = half_time (day * DAY) (Z.to_nat ((t - day * DAY) / HALF_HOUR)).
Proof.
  intros Ht. rewrite round_down_to_half_hour_eq. unfold half_time.
  rewrite Z2Nat.id by (apply Z.div_pos; [lia|unfold HALF_HOUR, MIN, SEC; lia]).
  replace (t mod HALF_HOUR) with ((t - day * DAY) mod HALF_HOUR).
  - pose proof (Z.div_mod (t - day * DAY) HALF_HOUR ltac:(unfold HALF_HOUR, MIN, SEC; lia)).
    lia.
  - replace t with ((t - day * DAY) + (day * 48) * HALF_HOUR) at 2
      by (unfold DAY, HOUR, HALF_HOUR; lia).
    rewrite Z.mod_add by (unfold HALF_HOUR, MIN, SEC; lia). reflexivity.
Qed.

Lemma covered_floor (ds : Z) (ivs : list Interval) (t : Z) :
  Forall (on_grid ds) ivs -> ds <= t ->
  (covered ivs t <-> covered ivs (half_time ds (Z.to_nat ((t - ds) / HALF_HOUR)))).
Proof.
  intros Hgrid Ht. unfold half_time.
  assert (Hq : 0 <= (t - ds) / HALF_HOUR)
    by (apply Z.div_pos; [lia|unfold HALF_HOUR, MIN, SEC; lia]).
  rewrite Z2Nat.id by exact Hq.
  pose proof (Z.div_mod (t - ds) HALF_HOUR ltac:(unfold HALF_HOUR, MIN, SEC; lia)).
  pose proof (Z.mod_pos_bound (t - ds) HALF_HOUR ltac:(unfold HALF_HOUR, MIN, SEC; lia)).
  generalize dependent ((t - ds) / HALF_HOUR). intros q Hdm Hq.
  rewrite List.Forall_forall in Hgrid.
  unfold covered. split; intros [it [Hin Hit]]; exists it; split; try exact Hin;
    destruct (Hgrid it Hin) as (a & b & Ha & Hb); rewrite Ha, Hb in *;
    unfold half_time, HALF_HOUR, MIN, SEC in *; lia.
Qed.

Lemma round_down_in_day (d : date) (t : Z) :
  _date_to_dt d <= t < _date_to_dt d + DAY ->
  (Z.to_nat ((t - _date_to_dt d) / HALF_HOUR) < 48)%nat /\
  _round_down_to_half_hour t
  = half_time (_date_to_dt d) (Z.to_nat ((t - _date_to_dt d) / HALF_HOUR)).
Proof.
  unfold _date_to_dt. intros Ht. split.
  - assert (Hlt : (t - date_day d * DAY) / HALF_HOUR < 48).
    { apply Z.div_lt_upper_bound; unfold DAY, HOUR, HALF_HOUR, MIN, SEC in *; lia. }
    assert (H0 : 0 <= (t - date_day d * DAY) / HALF_HOUR)
      by (apply Z.div_pos; unfold HALF_HOUR, MIN, SEC; lia).
    lia.
  - apply round_down_half_time. lia.
Qed.

Lemma off_intervals_cover_iff (d : date) (slots : SlotMap) (t : Z) :
  covered (_slots_to_off_intervals d slots) t <->
  (_date_to_dt d <= t < _date_to_dt d + DAY /\
   slot_status slots (_time_str_from_dt (_round_down_to_half_hour t)) = 2).
Proof.
  unfold _slots_to_off_intervals.
  destruct (off_walk_result d slots) as (_ & _ & Hb & _).
  rewrite off_walk_prefix in *.
  destruct (cov_full slots (_date_to_dt d)) as [Hg Hc].
  split.
  - intros Hcov.
    assert (Hr : _date_to_dt d <= t < _date_to_dt d + DAY).
    { destruct Hcov as [it [Hin Hit]]. rewrite List.Forall_forall in Hb.
      specialize (Hb it Hin). lia. }
    split; [exact Hr|].
    destruct (round_down_in_day d t Hr) as [Hk Hrd]. rewrite Hrd.
    apply (covered_floor _ _ t Hg (proj1 Hr)) in Hcov.
    apply (proj2 (Hc _ Hk)) in Hcov. unfold off_at in Hcov. apply Z.eqb_eq. exact Hcov.
  - intros [Hr Hs].
    destruct (round_down_in_day d t Hr) as [Hk Hrd]. rewrite Hrd in Hs.
    apply (covered_floor _ _ t Hg (proj1 Hr)).
    apply (proj1 (Hc _ Hk)). unfold off_at. apply Z.eqb_eq. exact Hs.
Qed.

(** X2: an instant lies inside one of the intervals derived for a day
    exactly when it falls within that day and the slot containing it (its
    half-hour, the key of the instant rounded down) has status 2. *)
Theorem slots_to_off_intervals_cover (d : date) (slots : SlotMap) (t : Z) :
  covered (_slots_to_off_intervals d slots) t <->
  (_date_to_dt d <= t < _date_to_dt d + DAY /\
   slot_status slots (_time_str_from_dt (_round_down_to_half_hour t)) = 2).
Proof. exact (off_intervals_cover_iff d slots t). Qed.

(** X3: [_is_now_has_power] answers "no power" exactly when [now] lies in
    one of the day's derived outage intervals, or lies in the day with a
    status at its slot that is neither 1 nor 2. *)
Theorem now_has_power_matches_intervals (now : Z) (d : date) (slots : SlotMap) :
  _is_now_has_power now d slots = false <->
  (covered (_slots_to_off_intervals d slots) now \/
   (_date_to_dt d <= now < _date_to_dt d + DAY /\
    let s := slot_status slots (_time_str_from_dt (_round_down_to_half_hour now)) in
    s <> 1 /\ s <> 2)).
Proof.
  rewrite off_intervals_cover_iff. cbv zeta.
  unfold _is_now_has_power. cbv zeta.
  destruct (Z_le_gt_dec (_date_to_dt d) now) as [Hlo|Hlo].
  - destruct (Z_lt_ge_dec now (_date_to_dt d + DAY)) as [Hhi|Hhi].
    + destruct (round_down_in_day d now (conj Hlo Hhi)) as [Hk Hrd].
      assert (Hin : (_date_to_dt d <=? _round_down_to_half_hour now) &&
                    (_round_down_to_half_hour now <? _date_to_dt d + DAY) = true).
      { rewrite Hrd. apply andb_true_iff. split; [apply Z.leb_le, half_time_ge|].
        apply Z.ltb_lt. rewrite day_end_half_time. apply half_time_lt. exact Hk. }
      rewrite Hin. cbn [negb].
      destruct (Z.eqb_spec (slot_status slots (_time_str_from_dt (_round_down_to_half_hour now))) 1)
        as [E|E].
      * split; [discriminate|]. intros [[_ H]|[_ [H _]]]; [rewrite E in H; discriminate|contradiction].
      * split; [intros _|reflexivity].
        destruct (Z.eq_dec (slot_status slots (_time_str_from_dt (_round_down_to_half_hour now))) 2)
          as [E2|E2]; [left; split; [lia|exact E2]|right; split; [lia|split; assumption]].
    + rewrite round_down_to_half_hour_eq.
      assert (Hout : (_date_to_dt d <=? now - now mod HALF_HOUR) &&
                     (now - now mod HALF_HOUR <? _date_to_dt d + DAY) = false).
      {
        pose proof (Z.mod_pos_bound now HALF_HOUR ltac:(unfold HALF_HOUR, MIN, SEC; lia)).
        destruct (Z.ltb_spec (now - now mod HALF_HOUR) (_date_to_dt d + DAY)) as [Hc|Hc];
          [|apply andb_false_r].
        exfalso.
        pose proof (Z.div_mod now HALF_HOUR ltac:(unfold HALF_HOUR, MIN, SEC; lia)).
        unfold _date_to_dt, DAY, HOUR, HALF_HOUR, MIN, SEC in *. lia. }
      rewrite Hout. cbn [negb]. split; [discriminate|]. intros [[H _]|[H _]]; lia.
  - assert (Hout : (_date_to_dt d <=? _round_down_to_half_hour now) = false).
    { apply Z.leb_gt. rewrite round_down_to_half_hour_eq.
      pose proof (Z.mod_pos_bound now HALF_HOUR ltac:(unfold HALF_HOUR, MIN, SEC; lia)). lia. }
    rewrite Hout. cbn [andb negb]. split; [discriminate|]. intros [[H _]|[H _]]; lia.
Qed.

(* ------------------------------------------------------------------ *)
(** ** Further properties of the schedule engine *)

(** X4: [_iter_half_hours day_start] stops after exactly 48 steps: its
    [j]-th element is [day_start] plus [j] half hours, and every element
    lies in [[day_start, day_start + 1 day)]. *)
Theorem iter_half_hours_48_steps (ds : Z) :
  length (_iter_half_hours ds) = 48%nat /\
  (forall j, (j < 48)%nat -> nth_error (_iter_half_hours ds) j = Some (ds + Z.of_nat j * HALF_HOUR)) /\
  Forall (fun t => ds <= t < ds + DAY) (_iter_half_hours ds).
Proof.
  rewrite iter_half_hours_eq. refine (conj _ (conj _ _)).
  - rewrite length_map, length_seq. reflexivity.
  - intros j Hj. rewrite List.nth_error_map, List.nth_error_seq.
    replace (Nat.ltb j 48) with true by (symmetry; apply Nat.ltb_lt; exact Hj).
    reflexivity.
  - apply List.Forall_forall. intros t Ht. apply in_map_iff in Ht as [j [<- Hj]].
    apply in_seq in Hj. split; [apply half_time_ge|].
    rewrite day_end_half_time. apply half_time_lt. lia.
Qed.

(** X5: every date's 48 boundaries give the same 48 keys, pairwise
    distinct, the [j]-th being [HH:00] or [HH:30] with [HH = j / 2]
    zero-padded. *)
Theorem day_keys_distinct (d : date) :
  map _time_str_from_dt (_iter_half_hours (_date_to_dt d)) = map slot_key (seq 0 48) /\
  NoDup (map slot_key (seq 0 48)) /\
  (forall j, (j < 48)%nat ->
     slot_key j = fmt02 (Z.of_nat j / 2) +:+ ":" +:+ (if Nat.even j then "00" else "30")).
Proof.
  refine (conj _ (conj _ _)).
  - rewrite iter_half_hours_eq, map_map. apply map_ext. intros j. apply time_str_half_time.
  - apply (bool_decide_unpack _). vm_compute. reflexivity.
  - assert (H : forallb (fun j => String.eqb (slot_key j)
                   (fmt02 (Z.of_nat j / 2) +:+ ":" +:+ (if Nat.even j then "00" else "30")))
                  (seq 0 48) = true) by (vm_compute; reflexivity).
    intros j Hj. rewrite forallb_forall in H. apply String.eqb_eq, H, in_seq. lia.
Qed.

(** X6: the next outage depends only on the intervals of both days taken
    together, not on how they are split between the two lists or ordered. *)
Theorem find_next_outage_perm (now : Z) (a b a' b' : list Interval) :
  Permutation (a ++ b) (a' ++ b') ->
  _find_next_outage now a b = _find_next_outage now a' b'.
Proof.
  intros Hp.
  assert (Hin : forall it, In it (a ++ b) <-> In it (a' ++ b'))
    by (intros it; split; [apply Permutation_in; exact Hp|
                           apply Permutation_in; symmetry; exact Hp]).
  destruct (_find_next_outage now a b) as [s|] eqn:E1;
    destruct (_find_next_outage now a' b') as [s'|] eqn:E2.
  - apply find_next_outage_spec in E1 as ([it [Hit Hs]] & Hlt & Hmin).
    apply find_next_outage_spec in E2 as ([it' [Hit' Hs']] & Hlt' & Hmin').
    f_equal. apply Z.le_antisymm.
    + subst s'. apply Hmin; [apply Hin; exact Hit'|lia].
    + subst s. apply Hmin'; [apply Hin; exact Hit|lia].
  - apply find_next_outage_spec in E1 as ([it [Hit Hs]] & Hlt & _).
    pose proof (proj1 (find_next_outage_none now a' b') E2 it (proj1 (Hin it) Hit)). lia.
  - apply find_next_outage_spec in E2 as ([it [Hit Hs]] & Hlt & _).
    pose proof (proj1 (find_next_outage_none now a b) E1 it (proj2 (Hin it) Hit)). lia.
  - reflexivity.
Qed.

(** X7: once an outage is the next one, it stays the next one until it
    starts: for any later [now'] before its start the answer is the same. *)
Theorem find_next_outage_stable (now now' s : Z) (a b : list Interval) :
  now <= now' -> now' < s ->
  _find_next_outage now a b = Some s -> _find_next_outage now' a b = Some s.
Proof.
  intros Hle Hlt Hs. apply find_next_outage_spec in Hs as (Hex & _ & Hmin).
  apply find_next_outage_spec. refine (conj Hex (conj Hlt _)).
  intros it Hit Hn. apply Hmin; [exact Hit|lia].
Qed.

(** X8: [_round_down_to_half_hour t] is the latest half-hour boundary not
    after [t]; rounding is idempotent and monotone. *)
Theorem round_down_latest_boundary (t t' : Z) :
  let r := _round_down_to_half_hour t in
  r mod HALF_HOUR = 0 /\ r <= t /\
  (forall b, b mod HALF_HOUR = 0 -> b <= t -> b <= r) /\
  _round_down_to_half_hour r = r /\
  (t <= t' -> r <= _round_down_to_half_hour t').
Proof.
  cbv zeta. rewrite !round_down_to_half_hour_eq.
  assert (HH : 0 < HALF_HOUR) by (unfold HALF_HOUR, MIN, SEC; lia).
  pose proof (Z.div_mod t HALF_HOUR ltac:(lia)) as Ht.
  pose proof (Z.mod_pos_bound t HALF_HOUR HH) as Htb.
  pose proof (Z.div_mod t' HALF_HOUR ltac:(lia)) as Ht'.
  pose proof (Z.mod_pos_bound t' HALF_HOUR HH) as Htb'.
  assert (Hr : (t - t mod HALF_HOUR) mod HALF_HOUR = 0).
  { replace (t - t mod HALF_HOUR) with ((t / HALF_HOUR) * HALF_HOUR) by lia.
    apply Z.mod_mul. lia. }
  refine (conj Hr (conj _ (conj _ (conj _ _)))).
  - lia.
  - intros b Hb Hbt.
    pose proof (Z.div_mod b HALF_HOUR ltac:(lia)) as Hbd.
    rewrite Hb in Hbd.
    assert (b / HALF_HOUR <= t / HALF_HOUR) by (apply Z.div_le_mono; lia).
    nia.
  - rewrite Hr. lia.
  - intros Htt.
    assert (t / HALF_HOUR <= t' / HALF_HOUR) by (apply Z.div_le_mono; lia).
    nia.
Qed.

Lemma find_next_outage_perm_witness :
  Permutation ([mkInterval 5 10] ++ [mkInterval 1 3]) ([] ++ [mkInterval 1 3; mkInterval 5 10]) /\
  _find_next_outage 2 [mkInterval 5 10] [mkInterval 1 3]
  = _find_next_outage 2 [] [mkInterval 1 3; mkInterval 5 10].
Proof.
  assert (Hp : Permutation ([mkInterval 5 10] ++ [mkInterval 1 3]) ([] ++ [mkInterval 1 3; mkInterval 5 10]))
    by (cbn; apply perm_swap).
  split; [exact Hp|]. apply (find_next_outage_perm 2 _ _ _ _ Hp).
Defined.

Lemma find_next_outage_stable_witness :
  _find_next_outage 1 [mkInterval 5 10] [mkInterval 20 30] = Some 5 /\
  _find_next_outage 4 [mkInterval 5 10] [mkInterval 20 30] = Some 5.
Proof.
  split; [vm_compute; reflexivity|].
  apply (find_next_outage_stable 1 4 5); [lia|lia|vm_compute; reflexivity].
Defined.

(* ------------------------------------------------------------------ *)
(** ** The [chats] table *)

Lemma set_field_chat_id (r : chat_row) (f : field) :
  plain_field f = true -> chat_id (set_field r f) = chat_id r.
Proof. intros H. destruct f as [[]|[]|[]|[]|[]|[]|[]|[]|[]|]; try discriminate H; reflexivity. Qed.



Lemma fold_set_field_chat_id (fs : list field) (r : chat_row) :
  forallb plain_field fs = true -> chat_id (fold_left set_field fs r) = chat_id r.
Proof.
  revert r. induction fs as [|f fs IH]; intros r H; [reflexivity|].
  apply andb_true_iff in H as [Hf Hfs]. cbn [fold_left].
  rewrite (IH _ Hfs). apply set_field_chat_id, Hf.
Qed.



Lemma stamp_in (now : pystr) (fs : list field) (f : field) :
  In f (stamp_updated_at now fs) -> In f fs \/ f = FUpdatedAt (Some now).
Proof.
  unfold stamp_updated_at. destruct (existsb is_updated_at fs).
  - intros Hin. apply in_map_iff in Hin as [g [Hg Hin]].
    destruct (is_updated_at g); [right; symmetry; exact Hg|left; subst; exact Hin].
  - intros Hin. apply in_app_or in Hin as [Hin|[<-|[]]]; [left; exact Hin|right; reflexivity].
Qed.



Lemma plain_stamp (now : pystr) (fs : list field) :
  forallb plain_field fs = true -> forallb plain_field (stamp_updated_at now fs) = true.
Proof.
  intros H. apply forallb_forall. intros f Hf.
  destruct (stamp_in now fs f Hf) as [Hin| ->]; [|reflexivity].
  exact (proj1 (forallb_forall _ _) H f Hin).
Qed.

Lemma plain_checks (fs : list field) :
  forallb plain_field fs = true ->
  forallb is_column fs = true /\ forallb satisfies_constraints fs = true /\
  forall cid, new_chat_id cid fs = cid.
Proof.
  induction fs as [|f fs IH]; intros H; [split; [reflexivity|split; [reflexivity|reflexivity]]|].
  apply andb_true_iff in H as [Hf Hfs]. destruct (IH Hfs) as [H1 [H2 H3]].
  cbn [forallb]. rewrite H1, H2.
  destruct f as [[]|[]|[]|[]|[]|[]|[]|[]|[]|]; try discriminate Hf;
    (split; [reflexivity|split; [reflexivity|intros cid; apply H3]]).
Qed.

Lemma update_plain (now : pystr) (cid : Z) (fs : list field) (t : chats_table) :
  forallb plain_field fs = true ->
  _update now cid fs t =
  Ok (match fs with
      | [] => t
      | _ :: _ => match t !! cid with
                  | Some r => <[cid := fold_left set_field (stamp_updated_at now fs) r]> t
                  | None => t
                  end
      end).
Proof.
  intros H. destruct fs as [|f fs]; [reflexivity|]. unfold _update. cbv zeta.
  destruct (plain_checks _ (plain_stamp now _ H)) as [H1 [H2 H3]].
  rewrite H1. cbn [negb]. destruct (t !! cid); [|reflexivity].
  rewrite H2, H3. cbn [negb]. rewrite bool_decide_eq_true_2 by reflexivity. reflexivity.
Qed.

Lemma get_or_create_chat_eq (now : pystr) (cid : Z) (t : chats_table) :
  get_or_create_chat now cid t =
  match t !! cid with
  | Some r => (r, t)
  | None => (new_chat_row cid now, <[cid := new_chat_row cid now]> t)
  end.
Proof.
  unfold get_or_create_chat, get_chat. destruct (t !! cid); [reflexivity|].
  rewrite lookup_insert_eq. reflexivity.
Qed.

(** X10: [get_or_create_chat] returns the stored row and leaves the table
    alone when the chat exists; otherwise it inserts and returns the default
    row stamped [now].  Either way [get_chat] then finds the returned row, no
    other chat changes, and a second call returns the same row without
    writing. *)
Theorem get_or_create_chat_idempotent (now now' : pystr) (cid : Z) (t : chats_table) :
  let (row, t') := get_or_create_chat now cid t in
  get_chat cid t' = Some row /\
  (forall k, k <> cid -> t' !! k = t !! k) /\
  match t !! cid with
  | Some r => row = r /\ t' = t
  | None => row = new_chat_row cid now
  end /\
  get_or_create_chat now' cid t' = (row, t').
Proof.
  rewrite get_or_create_chat_eq. unfold get_chat.
  destruct (t !! cid) as [r|] eqn:E.
  - refine (conj E (conj (fun _ _ => eq_refl) (conj (conj eq_refl eq_refl) _))).
    rewrite get_or_create_chat_eq, E. reflexivity.
  - refine (conj (lookup_insert_eq _ _ _) (conj _ (conj eq_refl _))).
    + intros k Hk. apply lookup_insert_ne. congruence.
    + rewrite get_or_create_chat_eq, lookup_insert_eq. reflexivity.
Qed.


Lemma toggle_notify_eq (now1 now2 : pystr) (cid : Z) (t : chats_table) :
  toggle_notify now1 now2 cid t =
  let old := match t !! cid with Some r => notify_enabled r | None => 0 end in
  let new_value := if old =? 1 then 0 else 1 in
  Ok (new_value =? 1,
      <[cid := fold_left set_field [FNotifyEnabled (Some new_value); FUpdatedAt (Some now2)]
                 (fst (get_or_create_chat now1 cid t))]> (snd (get_or_create_chat now1 cid t))).
Proof.
  unfold toggle_notify. rewrite get_or_create_chat_eq. cbv zeta.
  destruct (t !! cid) as [r|] eqn:E.
  - rewrite update_plain by reflexivity. rewrite E. reflexivity.
  - rewrite update_plain by reflexivity. rewrite lookup_insert_eq. reflexivity.
Qed.

(** X12: [toggle_notify] does not raise; it answers whether notifications
    are now on, stores exactly that as [notify_enabled] (1 for [True], 0 for
    [False]), and turns them on precisely when the stored value was not 1
    (a new chat counts as 0). *)
Theorem toggle_notify_reports_stored (now1 now2 : pystr) (cid : Z) (t : chats_table) :
  match toggle_notify now1 now2 cid t with
  | Ok (enabled, t') =>
      (exists r, t' !! cid = Some r /\ notify_enabled r = (if enabled then 1 else 0)) /\
      enabled = negb (match t !! cid with Some r => notify_enabled r =? 1 | None => false end)
  | Err _ => False
  end.
Proof.
  rewrite toggle_notify_eq. cbv zeta.
  split.
  - eexists. split; [apply lookup_insert_eq|]. cbn.
    destruct (match t !! cid with Some r0 => notify_enabled r0 | None => 0 end =? 1); reflexivity.
  - destruct (t !! cid) as [r0|]; [destruct (notify_enabled r0 =? 1)|]; reflexivity.
Qed.

(** X13: toggling twice raises at neither step, gives two opposite answers
    and restores a stored [notify_enabled] of 0 or 1. *)
Theorem toggle_notify_twice (now1 now2 now3 now4 : pystr) (cid : Z) (t : chats_table) (r : chat_row) :
  t !! cid = Some r -> notify_enabled r = 0 \/ notify_enabled r = 1 ->
  match toggle_notify now1 now2 cid t with
  | Ok (b1, t1) =>
      match toggle_notify now3 now4 cid t1 with
      | Ok (b2, t2) =>
          b2 = negb b1 /\ exists r2, t2 !! cid = Some r2 /\ notify_enabled r2 = notify_enabled r
      | Err _ => False
      end
  | Err _ => False
  end.
Proof.
  intros Hr H01. rewrite toggle_notify_eq. cbv zeta. rewrite Hr.
  rewrite get_or_create_chat_eq, Hr. cbn [fst snd].
  rewrite toggle_notify_eq. cbv zeta. rewrite lookup_insert_eq.
  rewrite get_or_create_chat_eq, !lookup_insert_eq. cbn [fst snd].
  split.
  - destruct H01 as [-> | ->]; reflexivity.
  - eexists; split; [reflexivity|]. cbn. destruct H01 as [-> | ->]; reflexivity.
Qed.

Lemma nodup_map_filter {A B : Type} (f : A -> B) (p : A -> bool) (l : list A) :
  NoDup (map f l) -> NoDup (map f (List.filter p l)).
Proof.
  induction l as [|x l IH]; intros H; cbn [List.filter map]; [constructor|].
  inversion H as [|y l' Hnin Hnd]; subst.
  destruct (p x); cbn [map]; [|apply IH, Hnd].
  constructor; [|apply IH, Hnd].
  intros Hin. apply Hnin. apply list_elem_of_In in Hin. apply list_elem_of_In.
  apply in_map_iff in Hin as [z [<- Hz]]. apply in_map. apply filter_In in Hz. apply Hz.
Qed.

(** X14: when every row sits under its own [chat_id], [list_notify_chats]
    lists exactly the stored rows with [notify_enabled = 1], each chat once. *)
Theorem list_notify_chats_spec (t : chats_table) :
  (forall k r, t !! k = Some r -> chat_id r = k) ->
  (forall r, In r (list_notify_chats t) <-> t !! chat_id r = Some r /\ notify_enabled r = 1) /\
  NoDup (map chat_id (list_notify_chats t)).
Proof.
  intros Hkey. unfold list_notify_chats, list_chats. split.
  - intros r. rewrite filter_In, in_map_iff, Z.eqb_eq. split.
    + intros [[[k r'] [Hs Hin]] Hn]. cbn in Hs. subst r'.
      apply list_elem_of_In, elem_of_map_to_list in Hin.
      rewrite (Hkey _ _ Hin). split; assumption.
    + intros [Hr Hn]. split; [|exact Hn]. exists (chat_id r, r). split; [reflexivity|].
      apply list_elem_of_In, elem_of_map_to_list. exact Hr.
  - apply nodup_map_filter. rewrite map_map.
    replace (map (fun x => chat_id (snd x)) (map_to_list t)) with ((map_to_list t).*1).
    + apply NoDup_fst_map_to_list.
    + apply map_ext_in. intros [k r] Hin. cbn.
      apply list_elem_of_In, elem_of_map_to_list in Hin. symmetry. apply (Hkey _ _ Hin).
Qed.

Lemma update_chats_ok (now : pystr) (cid : Z) (fs : list field) (t : chats_table) :
  chats_ok t -> forallb plain_field fs = true ->
  (forall r, chat_row_ok r -> chat_row_ok (fold_left set_field (stamp_updated_at now fs) r)) ->
  match _update now cid fs t with Ok t' => chats_ok t' | Err _ => False end.
Proof.
  intros Hok Hp Hf. rewrite (update_plain now cid fs t Hp).
  destruct fs as [|f fs]; [exact Hok|].
  destruct (t !! cid) as [r0|] eqn:E; [|exact Hok].
  intros k r Hk. destruct (decide (k = cid)) as [->|Hne].
  - rewrite lookup_insert_eq in Hk. injection Hk as <-.
    destruct (Hok cid r0 E) as [Hid Hr0]. split.
    + rewrite fold_set_field_chat_id by (apply plain_stamp, Hp). exact Hid.
    + apply Hf, Hr0.
  - rewrite lookup_insert_ne in Hk by congruence. exact (Hok k r Hk).
Qed.

Lemma get_or_create_chat_ok (now : pystr) (cid : Z) (t : chats_table) :
  chats_ok t -> chats_ok (snd (get_or_create_chat now cid t)) /\ chat_row_ok (fst (get_or_create_chat now cid t)).
Proof.
  intros Hok. rewrite get_or_create_chat_eq. destruct (t !! cid) as [r|] eqn:E.
  - split; [exact Hok|apply (Hok cid r E)].
  - assert (Hn : chat_row_ok (new_chat_row cid now))
      by (split; [left; reflexivity|intros H; contradiction H; reflexivity]).
    split; [|exact Hn]. intros k r Hk. cbn [snd] in Hk.
    destruct (decide (k = cid)) as [->|Hne].
    + rewrite lookup_insert_eq in Hk. injection Hk as <-. split; [reflexivity|exact Hn].
    + rewrite lookup_insert_ne in Hk by congruence. exact (Hok k r Hk).
Qed.

(** X15: every write the bot makes to [chats] succeeds and keeps
    [chats_ok] (rows under their own [chat_id], [notify_enabled] 0 or 1, a
    selected group valid), [set_group] as long as its group is one of
    [VALID_GROUPS]. *)
Theorem bot_writes_keep_chats_ok (now now' : pystr) (cid : Z) (t : chats_table) :
  chats_ok t ->
  chats_ok (snd (get_or_create_chat now cid t)) /\
  match toggle_notify now now' cid t with Ok (_, t') => chats_ok t' | Err _ => False end /\
  (forall enabled, match set_notify now cid enabled t with Ok t' => chats_ok t' | Err _ => False end) /\
  (forall message_id,
     match set_last_message_id now cid message_id t with Ok t' => chats_ok t' | Err _ => False end) /\
  (forall h, match update_schedule_hash now cid h t with Ok t' => chats_ok t' | Err _ => False end) /\
  (forall s,
     match set_last_notified_outage_start now cid s t with Ok t' => chats_ok t' | Err _ => False end) /\
  (forall g, g ∈ VALID_GROUPS ->
     match set_group now cid g t with Ok t' => chats_ok t' | Err _ => False end).
Proof.
  intros Hok. refine (conj (proj1 (get_or_create_chat_ok now cid t Hok)) _).
  split; [|split; [|split; [|split; [|split]]]].
  - unfold toggle_notify. destruct (get_or_create_chat now cid t) as [chat t1] eqn:E.
    pose proof (proj1 (get_or_create_chat_ok now cid t Hok)) as Hok1. rewrite E in Hok1.
    cbn [snd] in Hok1.
    pose proof (update_chats_ok now' cid [FNotifyEnabled (Some (if notify_enabled chat =? 1 then 0 else 1))]
                  t1 Hok1 eq_refl) as Hu.
    destruct (_update now' cid _ t1) as [t2|e]; cbn; [|apply Hu].
    + apply Hu. intros r [_ Hg]. split; [cbn; destruct (_ =? 1); [left|right]; reflexivity|exact Hg].
    + intros r [_ Hg]. split; [cbn; destruct (_ =? 1); [left|right]; reflexivity|exact Hg].
  - intros enabled. apply update_chats_ok; [exact Hok|reflexivity|].
    intros r [_ Hg]. split; [cbn; destruct enabled; [right|left]; reflexivity|exact Hg].
  - intros mid. apply update_chats_ok; [exact Hok|reflexivity|]. intros r Hr. exact Hr.
  - intros h. apply update_chats_ok; [exact Hok|reflexivity|]. intros r Hr. exact Hr.
  - intros s. apply update_chats_ok; [exact Hok|reflexivity|]. intros r Hr. exact Hr.
  - intros g Hg. apply update_chats_ok; [exact Hok|reflexivity|].
    intros r [Hn _]. split; [exact Hn|]. intros _. exists g. split; [reflexivity|exact Hg].
Qed.

(** X16: on a table kept by the bot's writes, [render_or_edit_main_message]
    either shows the group picker (no group selected yet) or asks for the
    schedule of a group that is set and one of [VALID_GROUPS], never of a
    NULL or unknown group. *)
Theorem render_branch_valid_group (now : pystr) (cid : Z) (t : chats_table) :
  chats_ok t ->
  render_branch_of (fst (get_or_create_chat now cid t)) = ShowGroupPicker \/
  exists g, render_branch_of (fst (get_or_create_chat now cid t)) = RenderSchedule (Some g) /\
            g ∈ VALID_GROUPS.
Proof.
  intros Hok. destruct (get_or_create_chat_ok now cid t Hok) as [_ [_ Hg]].
  unfold render_branch_of.
  destruct (Z.eqb_spec (group_selected (fst (get_or_create_chat now cid t))) 0) as [E|E];
    [left; reflexivity|right].
  destruct (Hg E) as [g [Hgn Hv]]. exists g. rewrite Hgn. split; [reflexivity|exact Hv].
Qed.

(* ------------------------------------------------------------------ *)
(** ** Callback data, commands and the group picker *)

Lemma group_prefix_split (s : pystr) :
  py_split1 58 (pylit "group:" ++ s) = [pylit "group"; s].
Proof. reflexivity. Qed.

Lemma group_prefix_startswith (s : pystr) :
  py_startswith (pylit "group:") (pylit "group:" ++ s) = true.
Proof. reflexivity. Qed.

Lemma on_callback_group_prefix (s : pystr) :
  on_callback_action (Some (pylit "group:" ++ s)) =
    (if bool_decide (py_strip s ∈ VALID_GROUPS) then CbSelectGroup (py_strip s) else CbInvalidGroup).
Proof.
  unfold on_callback_action.
  rewrite !bool_decide_eq_false_2 by (intros H; discriminate H).
  rewrite group_prefix_startswith, group_prefix_split. reflexivity.
Qed.

(** X17: [on_callback] only ever selects a group of [VALID_GROUPS]; callback
    data ["group:" + s] selects [s.strip()] when that is a valid group and is
    refused otherwise, never reaching the [IndexError] of [split]. *)
Theorem on_callback_selects_valid_group (query_data : option pystr) (g s : pystr) :
  (on_callback_action query_data = CbSelectGroup g -> g ∈ VALID_GROUPS) /\
  on_callback_action (Some (pylit "group:" ++ s)) =
    (if bool_decide (py_strip s ∈ VALID_GROUPS) then CbSelectGroup (py_strip s) else CbInvalidGroup).
Proof.
  split.
  - unfold on_callback_action. intros H.
    destruct (bool_decide (_ = pylit "refresh")); [discriminate H|].
    destruct (bool_decide (_ = pylit "toggle_notify")); [discriminate H|].
    destruct (bool_decide (_ = pylit "open_groups")); [discriminate H|].
    destruct (bool_decide (_ = pylit "back_main")); [discriminate H|].
    destruct (py_startswith _ _); [|discriminate H].
    destruct (nth_error _ 1) as [part|]; [|discriminate H].
    case_bool_decide as Hv; [injection H as <-; exact Hv|discriminate H].
  - apply on_callback_group_prefix.
Qed.

(** X18: [/group] with no argument shows the picker, and with arguments sets
    the first one, stripped, only when it is one of [VALID_GROUPS]. *)
Theorem group_cmd_sets_only_valid_groups (args : list pystr) (g : pystr) :
  (group_cmd_step args = GcSetGroup g -> g ∈ VALID_GROUPS /\ exists a rest, args = a :: rest /\ g = py_strip a) /\
  (group_cmd_step args = GcShowPicker <-> args = []).
Proof.
  unfold group_cmd_step. destruct args as [|a rest].
  - split; [discriminate|split; reflexivity].
  - case_bool_decide as Hv.
    + split; [intros H; injection H as <-; split; [exact Hv|exists a, rest; split; reflexivity]|].
      split; discriminate.
    + split; [discriminate|split; discriminate].
Qed.

Lemma build_groups_keyboard_rows (current_group : option pystr) :
  build_groups_keyboard current_group =
  [[group_button current_group (pylit "1.1"); group_button current_group (pylit "1.2")];
   [group_button current_group (pylit "2.1"); group_button current_group (pylit "2.2")];
   [group_button current_group (pylit "3.1"); group_button current_group (pylit "3.2")];
   [group_button current_group (pylit "4.1"); group_button current_group (pylit "4.2")];
   [group_button current_group (pylit "5.1"); group_button current_group (pylit "5.2")];
   [group_button current_group (pylit "6.1"); group_button current_group (pylit "6.2")];
   [mkButton (pylit "⬅️ Назад") (pylit "back_main")]].
Proof. reflexivity. Qed.

Lemma group_button_callback (current_group : option pystr) (g : pystr) :
  g ∈ VALID_GROUPS -> on_callback_action (Some (callback_data (group_button current_group g))) = CbSelectGroup g.
Proof.
  intros Hg. unfold group_button. cbn [callback_data].
  rewrite on_callback_group_prefix.
  assert (Hs : Forall (fun g => py_strip g = g) VALID_GROUPS) by (vm_compute; repeat constructor).
  rewrite List.Forall_forall in Hs. rewrite (Hs g (proj1 (list_elem_of_In _ _) Hg)).
  rewrite bool_decide_eq_true_2 by exact Hg. reflexivity.
Qed.

(** X19: the group picker has six rows of two group buttons and a last row
    with the back button; pressing its buttons in order selects each group
    of [VALID_GROUPS] in turn and then goes back, and a group button reads
    ["✅ " + g] for the chat's current group and [g] for the others. *)
Theorem groups_keyboard_round_trip (current_group : option pystr) :
  let kb := build_groups_keyboard current_group in
  map (@length button) kb = [2; 2; 2; 2; 2; 2; 1]%nat /\
  map (fun b => on_callback_action (Some (callback_data b))) (concat kb)
    = map CbSelectGroup VALID_GROUPS ++ [CbBackMain] /\
  (forall b g, In b (concat kb) -> on_callback_action (Some (callback_data b)) = CbSelectGroup g ->
     btn_text b = if bool_decide (Some g = current_group) then pylit "✅ " ++ g else g).
Proof.
  cbv zeta. rewrite build_groups_keyboard_rows. split; [reflexivity|split].
  - vm_compute. reflexivity.
  - intros b g Hb Hcb. cbn [concat app] in Hb.
    assert (Hcases : (exists g', g' ∈ VALID_GROUPS /\ b = group_button current_group g') \/
                     b = mkButton (pylit "⬅️ Назад") (pylit "back_main")).
    { repeat (destruct Hb as [<-|Hb];
        [left; eexists; split; [|reflexivity]; apply (bool_decide_unpack _); vm_compute; reflexivity|]).
      destruct Hb as [<-|[]]. right. reflexivity. }
    destruct Hcases as [[g' [Hg' ->]]| ->].
    + rewrite (group_button_callback current_group g' Hg') in Hcb. injection Hcb as <-. reflexivity.
    + vm_compute in Hcb. discriminate Hcb.
Qed.

(* ------------------------------------------------------------------ *)
(** ** Durations as the card shows them *)

Lemma string_chars_app (s1 s2 : string) :
  string_chars (s1 +:+ s2) = string_chars s1 ++ string_chars s2.
Proof.
  induction s1 as [|c s1 IH]; [reflexivity|].
  change (String c s1 +:+ s2) with (String c (s1 +:+ s2)). cbn [string_chars]. rewrite IH. reflexivity.
Qed.

Lemma string_chars_inj (s1 s2 : string) : string_chars s1 = string_chars s2 -> s1 = s2.
Proof.
  revert s2. induction s1 as [|c s1 IH]; intros [|d s2] H; cbn in H; try discriminate H; [reflexivity|].
  injection H as -> H. f_equal. apply IH, H.
Qed.

Lemma map_byte_val_inj (l1 l2 : list ascii) : map byte_val l1 = map byte_val l2 -> l1 = l2.
Proof.
  revert l2. induction l1 as [|c l1 IH]; intros [|d l2] H; cbn in H; try discriminate H; [reflexivity|].
  injection H as Hc H. f_equal; [|apply IH, H].
  unfold byte_val in Hc. apply Nat2Z.inj in Hc.
  rewrite <- (ascii_nat_embedding c), <- (ascii_nat_embedding d), Hc. reflexivity.
Qed.

Lemma py_int_str_inj (a b : Z) : py_int_str a = py_int_str b -> a = b.
Proof.
  unfold py_int_str. intros H. apply map_byte_val_inj, string_chars_inj in H.
  exact (pretty_Z_inj _ _ H).
Qed.

Lemma pretty_N_char_digit (d : N) : is_digit (pretty_N_char d) = true.
Proof. unfold pretty_N_char. repeat case_match; reflexivity. Qed.

Lemma pretty_N_go_digits (x : N) (s : string) :
  Forall (fun c => is_digit c = true) (string_chars s) ->
  Forall (fun c => is_digit c = true) (string_chars (pretty_N_go x s)).
Proof.
  revert s. induction (N.lt_wf_0 x) as [x _ IH]; intros s Hs.
  destruct (decide (x = 0%N)) as [->|Hx]; [rewrite pretty_N_go_0; exact Hs|].
  rewrite pretty_N_go_step by lia. apply IH; [apply N.div_lt; lia|].
  cbn. constructor; [apply pretty_N_char_digit|exact Hs].
Qed.

Lemma py_int_str_no_space (n : Z) : ~ In 32 (py_int_str n).
Proof.
  assert (Hd : forall p : positive,
             Forall (fun c => is_digit c = true) (string_chars (pretty (Npos p)))).
  { intros p. unfold pretty, pretty_N. case_decide; [discriminate|].
    apply pretty_N_go_digits. constructor. }
  assert (Hc : Forall (fun c => is_digit c = true \/ c = "-"%char) (string_chars (pretty n))).
  { destruct n as [|p|p]; cbn [pretty pretty_Z].
    - repeat constructor.
    - eapply Forall_impl; [apply (Hd p)|]. intros c Hc; left; exact Hc.
    - rewrite string_chars_app. apply Forall_app. split; [repeat constructor; right; reflexivity|].
      eapply Forall_impl; [apply (Hd p)|]. intros c Hc; left; exact Hc. }
  unfold py_int_str. intros Hin. apply in_map_iff in Hin as [c [Hc32 Hin]].
  rewrite List.Forall_forall in Hc. destruct (Hc c Hin) as [Hdig| ->]; [|discriminate Hc32].
  unfold is_digit in Hdig. unfold byte_val in Hc32. apply andb_true_iff in Hdig as [H1 _].
  apply Nat.leb_le in H1. lia.
Qed.

Lemma no_space_split (a b x y : pystr) :
  ~ In 32 a -> ~ In 32 b -> a ++ 32 :: x = b ++ 32 :: y -> a = b /\ x = y.
Proof.
  revert b. induction a as [|c a IH]; intros [|d b] Ha Hb H; cbn [app] in H.
  - injection H as H. split; [reflexivity|exact H].
  - injection H as Hd _. exfalso. apply Hb. left. symmetry. exact Hd.
  - injection H as Hc _. exfalso. apply Ha. left. exact Hc.
  - injection H as -> H.
    destruct (IH b (fun Hin => Ha (or_intror Hin)) (fun Hin => Hb (or_intror Hin)) H) as [-> ->].
    split; reflexivity.
Qed.

Lemma fmt_minutes_some (n : Z) :
  _fmt_minutes (Some n) =
  if negb (n / 60 =? 0) && negb (n mod 60 =? 0) then
    py_int_str (n / 60) ++ 32 :: 1075 :: 1086 :: 1076 :: 32 :: (py_int_str (n mod 60) ++ [32; 1093; 1074])
  else if negb (n / 60 =? 0) then py_int_str (n / 60) ++ [32; 1075; 1086; 1076]
  else py_int_str (n mod 60) ++ [32; 1093; 1074].
Proof. reflexivity. Qed.

Lemma fmt_minutes_some_shape (n : Z) :
  exists x rest, _fmt_minutes (Some n) = py_int_str x ++ 32 :: rest.
Proof.
  rewrite fmt_minutes_some.
  destruct (negb (n / 60 =? 0) && negb (n mod 60 =? 0)); [do 2 eexists; reflexivity|].
  destruct (negb (n / 60 =? 0)); do 2 eexists; reflexivity.
Qed.

(** X20: [_fmt_minutes] never shows two different durations (or a duration
    and "no value") the same way: the text determines the number. *)
Theorem fmt_minutes_injective (a b : option Z) :
  _fmt_minutes a = _fmt_minutes b -> a = b.
Proof.
  assert (Hnone : forall n, _fmt_minutes (Some n) <> _fmt_minutes None).
  { intros n H. destruct (fmt_minutes_some_shape n) as [x [rest Hs]]. rewrite Hs in H.
    assert (Hin : In 32 (_fmt_minutes None))
      by (rewrite <- H; apply in_or_app; right; left; reflexivity).
    vm_compute in Hin. destruct Hin as [Hin|[]]. discriminate Hin. }
  destruct a as [n1|], b as [n2|]; intros H;
    [|exfalso; exact (Hnone n1 H)|exfalso; exact (Hnone n2 (eq_sym H))|reflexivity].
  f_equal. rewrite !fmt_minutes_some in H. revert H.
  pose proof (Z.div_mod n1 60 ltac:(lia)) as Hd1. pose proof (Z.div_mod n2 60 ltac:(lia)) as Hd2.
  destruct (Z.eqb_spec (n1 / 60) 0), (Z.eqb_spec (n1 mod 60) 0),
    (Z.eqb_spec (n2 / 60) 0), (Z.eqb_spec (n2 mod 60) 0);
    cbn [negb andb]; intros Heq;
    destruct (no_space_split _ _ _ _ (py_int_str_no_space _) (py_int_str_no_space _) Heq) as [Hp Hr];
    apply py_int_str_inj in Hp;
    first
      [ discriminate Hr
      | do 4 apply (f_equal (@tl Z)) in Hr; cbn [tl] in Hr;
        apply app_inv_tail in Hr; apply py_int_str_inj in Hr; lia
      | lia ].
Qed.

(* ------------------------------------------------------------------ *)
(** ** The admin report *)

Lemma dict_incr_get (g k : option pystr) (counts : list (option pystr * Z)) :
  counts_get k (dict_incr g counts) = counts_get k counts + (if bool_decide (k = g) then 1 else 0).
Proof.
  induction counts as [|[k0 n0] rest IH].
  - cbn. destruct (decide (k = g)) as [->|Hne].
    + rewrite !bool_decide_eq_true_2 by reflexivity. reflexivity.
    + rewrite !bool_decide_eq_false_2 by congruence. reflexivity.
  - cbn [dict_incr]. destruct (decide (k0 = g)) as [->|Hne].
    + rewrite (bool_decide_eq_true_2 (g = g)) by reflexivity. cbn [counts_get].
      destruct (decide (g = k)) as [->|Hgk].
      * rewrite !bool_decide_eq_true_2 by reflexivity. lia.
      * rewrite !bool_decide_eq_false_2 by congruence. lia.
    + rewrite (bool_decide_eq_false_2 (k0 = g)) by exact Hne. cbn [counts_get]. rewrite IH.
      destruct (decide (k0 = k)) as [->|Hk].
      * rewrite (bool_decide_eq_true_2 (k = k)) by reflexivity.
        rewrite (bool_decide_eq_false_2 (k = g)) by exact Hne. lia.
      * rewrite (bool_decide_eq_false_2 (k0 = k)) by exact Hk. lia.
Qed.

Lemma dict_incr_keys (g x : option pystr) (counts : list (option pystr * Z)) :
  In x (map fst (dict_incr g counts)) <-> x = g \/ In x (map fst counts).
Proof.
  induction counts as [|[k0 n0] rest IH].
  - cbn. split; [intros [->|[]]; left; reflexivity|intros [->|[]]; left; reflexivity].
  - cbn [dict_incr]. destruct (decide (k0 = g)) as [->|Hne].
    + rewrite (bool_decide_eq_true_2 (g = g)) by reflexivity. cbn [map fst In].
      split; [tauto|intros [<-|H]; [left; reflexivity|exact H]].
    + rewrite (bool_decide_eq_false_2 (k0 = g)) by exact Hne. cbn [map fst In]. rewrite IH. tauto.
Qed.

Lemma dict_incr_nodup (g : option pystr) (counts : list (option pystr * Z)) :
  NoDup (map fst counts) -> NoDup (map fst (dict_incr g counts)).
Proof.
  induction counts as [|[k0 n0] rest IH]; intros Hnd.
  - cbn. constructor; [intros Hin; inversion Hin|constructor].
  - inversion Hnd as [|y l Hnin Hnd']; subst. cbn [dict_incr].
    destruct (decide (k0 = g)) as [->|Hne].
    + rewrite (bool_decide_eq_true_2 (g = g)) by reflexivity. cbn [map fst]. constructor; assumption.
    + rewrite (bool_decide_eq_false_2 (k0 = g)) by exact Hne. cbn [map fst].
      constructor; [|apply IH, Hnd'].
      intros Hin. apply list_elem_of_In, dict_incr_keys in Hin as [->|Hin]; [contradiction|].
      apply Hnin, list_elem_of_In, Hin.
Qed.

Lemma counts_get_in (g : option pystr) (n : Z) (counts : list (option pystr * Z)) :
  NoDup (map fst counts) -> In (g, n) counts -> counts_get g counts = n.
Proof.
  induction counts as [|[k0 n0] rest IH]; intros Hnd Hin; [destruct Hin|].
  inversion Hnd as [|y l Hnin Hnd']; subst. cbn [counts_get].
  destruct Hin as [Heq|Hin].
  - injection Heq as -> ->. rewrite bool_decide_eq_true_2 by reflexivity. reflexivity.
  - destruct (decide (k0 = g)) as [->|Hne].
    + exfalso. apply Hnin, list_elem_of_In, in_map_iff. exists (g, n). split; [reflexivity|exact Hin].
    + rewrite (bool_decide_eq_false_2 (k0 = g)) by exact Hne. apply IH; assumption.
Qed.

Lemma group_counts_go (chats : list chat_row) (acc : list (option pystr * Z)) :
  let res := fold_left (fun counts c => dict_incr (group_name c) counts) chats acc in
  (NoDup (map fst acc) -> NoDup (map fst res)) /\
  (forall g, In g (map fst res) <-> In g (map fst acc) \/ exists c, In c chats /\ group_name c = g) /\
  (forall g, counts_get g res =
     counts_get g acc + Z.of_nat (length (List.filter (fun c => bool_decide (group_name c = g)) chats))).
Proof.
  revert acc. induction chats as [|c cs IH]; intros acc; cbv zeta; cbn [fold_left].
  - split; [tauto|split; [intros g; split; [tauto|intros [H|[c [[] _]]]; exact H]|]].
    intros g. cbn. lia.
  - destruct (IH (dict_incr (group_name c) acc)) as (H1 & H2 & H3). split; [|split].
    + intros Hnd. apply H1, dict_incr_nodup, Hnd.
    + intros g. rewrite H2, dict_incr_keys. split.
      * intros [[->|Hin]|[c' [Hc' Hg]]]; [right; exists c; split; [left|]; reflexivity|left; exact Hin|].
        right. exists c'. split; [right|]; assumption.
      * intros [Hin|[c' [[<-|Hc'] Hg]]]; [left; right; exact Hin|left; left; symmetry; exact Hg|].
        right. exists c'. split; assumption.
    + intros g. rewrite H3, dict_incr_get. cbn [List.filter].
      case_bool_decide as Hg; case_bool_decide as Hg'; subst; try contradiction;
        cbn [length]; lia.
Qed.

(** X21: the per-group tally of [info_cmd] lists each [group_name] (NULL
    included) once, exactly the groups some chat has, each with the number
    of chats that have it. *)
Theorem info_group_counts (chats : list chat_row) :
  let counts := group_counts chats in
  NoDup (map fst counts) /\
  (forall g, In g (map fst counts) <-> exists c, In c chats /\ group_name c = g) /\
  (forall g n, In (g, n) counts ->
     n = Z.of_nat (length (List.filter (fun c => bool_decide (group_name c = g)) chats))).
Proof.
  cbv zeta. unfold group_counts. destruct (group_counts_go chats []) as (H1 & H2 & H3).
  assert (Hnd : NoDup (map fst (fold_left (fun counts c => dict_incr (group_name c) counts) chats [])))
    by (apply H1; constructor).
  split; [exact Hnd|split].
  - intros g. rewrite H2. cbn. tauto.
  - intros g n Hin. rewrite <- (counts_get_in g n _ Hnd Hin), H3. reflexivity.
Qed.

Lemma insert_desc_perm (x : option pystr * Z) (l : list (option pystr * Z)) :
  Permutation (insert_desc x l) (x :: l).
Proof.
  induction l as [|y l IH]; cbn [insert_desc]; [reflexivity|].
  destruct (snd y <? snd x); [reflexivity|].
  etransitivity; [apply perm_skip, IH|apply perm_swap].
Qed.

Lemma insert_desc_hd (x y : option pystr * Z) (l : list (option pystr * Z)) :
  snd x <= snd y -> HdRel (fun a b => snd b <= snd a) y l ->
  HdRel (fun a b => snd b <= snd a) y (insert_desc x l).
Proof.
  intros Hxy Hl. destruct l as [|z l]; cbn [insert_desc]; [constructor; exact Hxy|].
  destruct (snd z <? snd x); constructor; [exact Hxy|]. inversion Hl; assumption.
Qed.

Lemma insert_desc_sorted (x : option pystr * Z) (l : list (option pystr * Z)) :
  Sorted (fun a b => snd b <= snd a) l -> Sorted (fun a b => snd b <= snd a) (insert_desc x l).
Proof.
  induction l as [|y l IH]; intros Hs; cbn [insert_desc]; [repeat constructor|].
  apply Sorted_inv in Hs as [Hs Hhd].
  destruct (Z.ltb_spec (snd y) (snd x)) as [Hlt|Hge].
  - constructor; [constructor; assumption|constructor; lia].
  - constructor; [apply IH, Hs|apply insert_desc_hd; [lia|exact Hhd]].
Qed.

Lemma sort_desc_go (l acc : list (option pystr * Z)) :
  Sorted (fun a b => snd b <= snd a) acc ->
  let res := fold_left (fun acc x => insert_desc x acc) l acc in
  Permutation res (l ++ acc) /\ Sorted (fun a b => snd b <= snd a) res.
Proof.
  revert acc. induction l as [|x l IH]; intros acc Hs; cbv zeta; cbn [fold_left app];
    [split; [reflexivity|exact Hs]|].
  destruct (IH (insert_desc x acc) (insert_desc_sorted x acc Hs)) as [Hp Hs'].
  split; [|exact Hs'].
  rewrite Hp, insert_desc_perm. symmetry. apply Permutation_middle.
Qed.

Lemma strongly_sorted_app {A : Type} (R : A -> A -> Prop) (l1 l2 : list A) :
  StronglySorted R (l1 ++ l2) -> forall x y, In x l1 -> In y l2 -> R x y.
Proof.
  induction l1 as [|a l1 IH]; intros Hs x y Hx Hy; [destruct Hx|].
  cbn [app] in Hs. apply StronglySorted_inv in Hs as [Hs Hall].
  destruct Hx as [<-|Hx].
  - rewrite List.Forall_forall in Hall. apply Hall, in_or_app. right. exact Hy.
  - exact (IH Hs x y Hx Hy).
Qed.

Lemma strongly_sorted_app_l {A : Type} (R : A -> A -> Prop) (l1 l2 : list A) :
  StronglySorted R (l1 ++ l2) -> StronglySorted R l1.
Proof.
  induction l1 as [|a l1 IH]; intros Hs; [constructor|].
  cbn [app] in Hs. apply StronglySorted_inv in Hs as [Hs Hall].
  constructor; [apply IH, Hs|].
  rewrite List.Forall_forall in *. intros y Hy. apply Hall, in_or_app. left. exact Hy.
Qed.

(** X22: the "top groups" of [info_cmd] are the [min 5 (number of groups)]
    largest tallies in decreasing order: together with the tallies left out
    they are all of them, and none left out exceeds one shown. *)
Theorem info_top_most_popular (chats : list chat_row) :
  let counts := group_counts chats in
  let top := info_top chats in
  length top = Nat.min 5 (length counts) /\
  Sorted (fun a b => snd b <= snd a) top /\
  exists rest, Permutation counts (top ++ rest) /\
    forall x y, In x rest -> In y top -> snd x <= snd y.
Proof.
  cbv zeta. unfold info_top, sort_desc.
  destruct (sort_desc_go (group_counts chats) [] (Sorted_nil _)) as [Hp Hs].
  rewrite app_nil_r in Hp.
  set (l := fold_left (fun acc x => insert_desc x acc) (group_counts chats) []) in *.
  assert (Hss : StronglySorted (fun a b : option pystr * Z => snd b <= snd a) l).
  { apply Sorted_StronglySorted; [intros a b c H1 H2; lia|exact Hs]. }
  split; [rewrite length_firstn, (Permutation_length Hp); reflexivity|split].
  - apply StronglySorted_Sorted. rewrite <- (firstn_skipn 5 l) in Hss.
    exact (strongly_sorted_app_l _ _ _ Hss).
  - exists (skipn 5 l). rewrite firstn_skipn. split; [symmetry; exact Hp|].
    intros x y Hx Hy. rewrite <- (firstn_skipn 5 l) in Hss.
    exact (strongly_sorted_app _ _ _ Hss y x Hy Hx).
Qed.

(* ------------------------------------------------------------------ *)
(** ** Instances of the hypotheses *)

Lemma chats_ok_single_row :
  chats_ok (<[7 := mkChatRow 7 (Some (pylit "3.2")) 1 0 None None None (pylit "t0") (pylit "t0")]> ∅).
Proof.
  intros k r H. destruct (decide (k = 7)) as [->|Hne].
  - rewrite lookup_insert_eq in H. injection H as <-.
    split; [reflexivity|split; [left; reflexivity|]].
    intros _. eexists. split; [reflexivity|]. apply (bool_decide_unpack _). vm_compute. reflexivity.
  - rewrite lookup_insert_ne, lookup_empty in H by congruence. discriminate H.
Qed.

Lemma toggle_notify_twice_witness :
  (<[7 := new_chat_row 7 (pylit "t0")]> ∅ : chats_table) !! 7 = Some (new_chat_row 7 (pylit "t0")) /\
  (notify_enabled (new_chat_row 7 (pylit "t0")) = 0 \/ notify_enabled (new_chat_row 7 (pylit "t0")) = 1) /\
  match toggle_notify (pylit "t1") (pylit "t2") 7 (<[7 := new_chat_row 7 (pylit "t0")]> ∅) with
  | Ok (b1, t1) =>
      match toggle_notify (pylit "t3") (pylit "t4") 7 t1 with
      | Ok (b2, t2) =>
          b2 = negb b1 /\ exists r2, t2 !! 7 = Some r2 /\
                                    notify_enabled r2 = notify_enabled (new_chat_row 7 (pylit "t0"))
      | Err _ => False
      end
  | Err _ => False
  end.
Proof.
  assert (H1 : (<[7 := new_chat_row 7 (pylit "t0")]> ∅ : chats_table) !! 7 = Some (new_chat_row 7 (pylit "t0")))
    by (rewrite lookup_insert_eq; reflexivity).
  assert (H2 : notify_enabled (new_chat_row 7 (pylit "t0")) = 0 \/ notify_enabled (new_chat_row 7 (pylit "t0")) = 1)
    by (left; reflexivity).
  split; [exact H1|split; [exact H2|]].
  exact (toggle_notify_twice (pylit "t1") (pylit "t2") (pylit "t3") (pylit "t4") 7 _ _ H1 H2).
Defined.

Lemma list_notify_chats_spec_witness :
  (forall k r, (<[7 := set_field (new_chat_row 7 (pylit "t0")) (FNotifyEnabled (Some 1))]>
                 (<[8 := new_chat_row 8 (pylit "t0")]> ∅) : chats_table) !! k = Some r -> chat_id r = k) /\
  NoDup (map chat_id (list_notify_chats
     (<[7 := set_field (new_chat_row 7 (pylit "t0")) (FNotifyEnabled (Some 1))]> (<[8 := new_chat_row 8 (pylit "t0")]> ∅)))).
Proof.
  assert (Hkey : forall k r, (<[7 := set_field (new_chat_row 7 (pylit "t0")) (FNotifyEnabled (Some 1))]>
                 (<[8 := new_chat_row 8 (pylit "t0")]> ∅) : chats_table) !! k = Some r -> chat_id r = k).
  { intros k r H. destruct (decide (k = 7)) as [->|H7].
    - rewrite lookup_insert_eq in H. injection H as <-. reflexivity.
    - rewrite lookup_insert_ne in H by congruence. destruct (decide (k = 8)) as [->|H8].
      + rewrite lookup_insert_eq in H. injection H as <-. reflexivity.
      + rewrite lookup_insert_ne, lookup_empty in H by congruence. discriminate H. }
  split; [exact Hkey|]. exact (proj2 (list_notify_chats_spec _ Hkey)).
Defined.

Lemma bot_writes_keep_chats_ok_witness :
  chats_ok (<[7 := mkChatRow 7 (Some (pylit "3.2")) 1 0 None None None (pylit "t0") (pylit "t0")]> ∅) /\
  match set_group (pylit "t1") 7 (pylit "5.1")
    (<[7 := mkChatRow 7 (Some (pylit "3.2")) 1 0 None None None (pylit "t0") (pylit "t0")]> ∅) with
  | Ok t' => chats_ok t'
  | Err _ => False
  end.
Proof.
  split; [exact chats_ok_single_row|].
  apply (bot_writes_keep_chats_ok (pylit "t1") (pylit "t2") 7 _ chats_ok_single_row).
  apply (bool_decide_unpack _). vm_compute. reflexivity.
Defined.

Lemma render_branch_valid_group_witness :
  chats_ok (<[7 := mkChatRow 7 (Some (pylit "3.2")) 1 0 None None None (pylit "t0") (pylit "t0")]> ∅) /\
  (render_branch_of (fst (get_or_create_chat (pylit "t1") 7
     (<[7 := mkChatRow 7 (Some (pylit "3.2")) 1 0 None None None (pylit "t0") (pylit "t0")]> ∅)))
     = ShowGroupPicker \/
   exists g, render_branch_of (fst (get_or_create_chat (pylit "t1") 7
     (<[7 := mkChatRow 7 (Some (pylit "3.2")) 1 0 None None None (pylit "t0") (pylit "t0")]> ∅)))
     = RenderSchedule (Some g) /\ g ∈ VALID_GROUPS).
Proof.
  split; [exact chats_ok_single_row|].
  exact (render_branch_valid_group (pylit "t1") 7 _ chats_ok_single_row).
Defined.

Lemma fmt_minutes_injective_witness :
  _fmt_minutes (Some 90) = _fmt_minutes (Some 90) /\ Some 90 = Some 90.
Proof.
  assert (H : _fmt_minutes (Some 90) = _fmt_minutes (Some 90)) by reflexivity.
  split; [exact H|exact (fmt_minutes_injective _ _ H)].
Defined.
